(** * send-mqtt.js: the publish orchestrator, embedded and verified

    A shallow embedding of [.github/workflows/send-mqtt.js]: the script's
    globals read from [process.env], the single attempt [publishOnce] as a
    set of event handlers over the state its closure captures, and the
    retry loop of the async main function.

    Modelling conventions.
    - [process.env] is a finite map from names to strings; a variable that
      is not set looks up to [None] (JavaScript's [undefined]).
    - JavaScript numbers are [jsnum]: NaN, the two infinities, or a finite
      value carried as an exact rational.  Every finite double is a
      rational, the loop counter stays an integer, and the arithmetic the
      script performs (a multiplication by a power of two, the addition of
      5000, the increment of the counter) is exact on doubles as long as
      the values stay integers below 2^53, which is where the model and
      the script coincide digit for digit.
    - [Number] applied to a string is a builtin of the language, not code
      of this repository: it is a parameter of the development.
    - The MQTT client is an external library.  Its behaviour enters as the
      list of events it delivers to the handlers the script registered;
      what the script does in response is recorded as a trace of
      [action]s.  Library calls are taken to return normally; the only
      call the script guards is [client.end], whose exception it swallows,
      so the trace is the same whether it throws or not.  A call of
      [mqtt.connect] that throws (the promise is then rejected before a
      timer is armed or a handler registered) is outside the model. *)

From Stdlib Require Import ZArith QArith Bool List String Lia.
From stdpp Require Import gmap strings list.

Open Scope string_scope.
Open Scope list_scope.

(** ** JavaScript values the script handles *)

(** Truthiness of [process.env.X]: [undefined] and the empty string are
    falsy, every other string is truthy. *)
Definition truthy (v : option string) : bool :=
  match v with
  | Some s => negb (String.eqb s "")
  | None => false
  end.

(** [process.env.X || d] where [d] is a string. *)
Definition or_default (v : option string) (d : string) : string :=
  match v with
  | Some s => if String.eqb s "" then d else s
  | None => d
  end.

Inductive jsnum : Type :=
| NaN
| NegInf
| PosInf
| Fin (q : Q).

Definition of_Z (z : Z) : jsnum := Fin (inject_Z z).

(** [a <= b] and [a < b] on numbers: any comparison with NaN is false. *)
Definition js_le (a b : jsnum) : bool :=
  match a, b with
  | NaN, _ | _, NaN => false
  | NegInf, _ => true
  | _, PosInf => true
  | PosInf, _ => false
  | _, NegInf => false
  | Fin x, Fin y => Qle_bool x y
  end.

Definition js_lt (a b : jsnum) : bool :=
  match a, b with
  | NaN, _ | _, NaN => false
  | PosInf, _ => false
  | _, NegInf => false
  | NegInf, _ => true
  | _, PosInf => true
  | Fin x, Fin y => negb (Qle_bool y x)
  end.

(** Sign of a rational, for the products with an infinity. *)
Definition Qsign (q : Q) : comparison := (Qnum q ?= 0)%Z.

Definition js_mul (a b : jsnum) : jsnum :=
  match a, b with
  | NaN, _ | _, NaN => NaN
  | Fin x, Fin y => Fin (x * y)
  | PosInf, PosInf | NegInf, NegInf => PosInf
  | PosInf, NegInf | NegInf, PosInf => NegInf
  | PosInf, Fin q | Fin q, PosInf =>
      match Qsign q with Gt => PosInf | Lt => NegInf | Eq => NaN end
  | NegInf, Fin q | Fin q, NegInf =>
      match Qsign q with Gt => NegInf | Lt => PosInf | Eq => NaN end
  end.

Definition js_add (a b : jsnum) : jsnum :=
  match a, b with
  | NaN, _ | _, NaN => NaN
  | Fin x, Fin y => Fin (x + y)
  | PosInf, NegInf | NegInf, PosInf => NaN
  | PosInf, _ | _, PosInf => PosInf
  | NegInf, _ | _, NegInf => NegInf
  end.

(** [Math.pow(2, n)] for an integer [n]. *)
Definition Math_pow2 (n : Z) : jsnum :=
  match n with
  | Z0 => Fin 1
  | Zpos p => of_Z (2 ^ Zpos p)
  | Zneg p => Fin (1 # (2 ^ p))
  end.

(** ** Traces, events and the state of one attempt *)

Record options : Type := {
  username : option string;
  password : option string;
  opt_connectTimeout : jsnum;
  reconnectPeriod : Z;
  headers : gmap string string
}.

(** What a failure carries: the message of the error. *)
Definition error : Type := string.

Inductive logline : Type :=
| LHostNotSet
| LConnecting (target : option string) (timeout : jsnum) (reconnect : Z)
| LTimedOut (timeout : jsnum)
| LConnected (topic : option string)
| LPublishError (e : error)
| LPublished (payload : string) (topic : option string)
| LErrorEvent (e : error)
| LResponse (status : Z)
| LResponseHeaders
| LAttempt (attempt : Z) (max : jsnum)
| LDone
| LAttemptFailed (attempt : Z) (e : error)
| LWaiting (backoff : jsnum)
| LAllFailed.

(** What the script does to the outside world, in order. *)
Inductive action : Type :=
| ALog (l : logline)
| AConnect (target : option string) (o : options)
| ASetTimeout (ms : jsnum)
| AClearTimeout
| APublish (topic : option string) (payload : string) (qos : Z)
| AEnd (force : bool) (callback : bool)
| AResolve
| AReject (e : error)
| ASleep (ms : jsnum)
| AExit (code : Z).

(** What the library and the timer deliver to the script. *)
Inductive event : Type :=
| EvTimer
| EvConnect
| EvError (e : error)
| EvPublished (err : option error)
| EvClosed
| EvResponse (status : Z) (has_headers : bool).

Inductive promise_state : Type :=
| Pending
| Resolved
| Rejected (e : error).

(** The state one call of [publishOnce] closes over: the [timedOut]
    flag, whether the timer is still armed, how many callbacks handed
    to [client.publish] and to [client.end] are outstanding, the
    promise, and what was done so far. *)
Record attempt : Type := {
  timedOut : bool;
  timer : bool;
  publishing : nat;
  closing : nat;
  promise : promise_state;
  trace : list action
}.

(** ** Configuration: the globals of the script *)

Section Script.

(** The builtin conversion of a string to a number. *)
Variable Number : string -> jsnum.
(** [process.env]. *)
Variable env : gmap string string.

Definition TARGET : option string := env !! "MQTT_HOST".
Definition TOPIC : option string := env !! "MQTT_PATH".
Definition PAYLOAD : string := or_default (env !! "RELEASE_TAG") "ci-test".
Definition USER : option string := env !! "MQTT_USER".
Definition PASS : option string := env !! "MQTT_PASSWORD".

(** [Number(process.env.X || d)] where [d] is a number literal. *)
Definition Number_or (v : option string) (d : Z) : jsnum :=
  match v with
  | Some s => if String.eqb s "" then of_Z d else Number s
  | None => of_Z d
  end.

Definition maxAttempts : jsnum := Number_or (env !! "MQTT_ATTEMPTS") 4.
Definition baseDelayMs : jsnum := Number_or (env !! "MQTT_RETRY_DELAY_MS") 3000.
Definition connectTimeout : jsnum :=
  Number_or (env !! "MQTT_CONNECT_TIMEOUT_MS") 15000.

(** The headers object built at the top of [publishOnce]: the two
    access headers are added under the guard
    [CF_ACCESS_CLIENT_ID && CF_ACCESS_CLIENT_SECRET]. *)
Definition wsHeaders : gmap string string :=
  let base : gmap string string :=
    <["User-Agent" := "github-selfhosted-mqtt-publisher/1.0"]>
      (<["sec-websocket-protocol" := "mqtt"]> ∅) in
  match env !! "CF_ACCESS_CLIENT_ID", env !! "CF_ACCESS_CLIENT_SECRET" with
  | Some id, Some secret =>
      if negb (String.eqb id "") && negb (String.eqb secret "")
      then <["CF-Access-Client-Secret" := secret]>
             (<["CF-Access-Client-Id" := id]> base)
      else base
  | _, _ => base
  end.

(** ** One attempt: [publishOnce] *)

Definition emit (a : action) (s : attempt) : attempt :=
  {| timedOut := timedOut s; timer := timer s; publishing := publishing s;
     closing := closing s; promise := promise s; trace := trace s ++ [a] |}.

Definition log (l : logline) : attempt -> attempt := emit (ALog l).

(** A promise keeps its first settlement: later calls change nothing. *)
Definition settle (p : promise_state) (s : attempt) : attempt :=
  {| timedOut := timedOut s; timer := timer s; publishing := publishing s;
     closing := closing s;
     promise := match promise s with Pending => p | settled => settled end;
     trace := trace s |}.

Definition reject (e : error) (s : attempt) : attempt :=
  settle (Rejected e) (emit (AReject e) s).

Definition resolve (s : attempt) : attempt :=
  settle Resolved (emit AResolve s).

Definition clearTimeout (s : attempt) : attempt :=
  emit AClearTimeout
    {| timedOut := timedOut s; timer := false; publishing := publishing s;
       closing := closing s; promise := promise s; trace := trace s |}.

(** [try { client.end(true); } catch(e) {}] *)
Definition client_end (s : attempt) : attempt := emit (AEnd true false) s.

(** [client.end(true, () => resolve({ ok: true }))] *)
Definition client_end_then_resolve (s : attempt) : attempt :=
  emit (AEnd true true)
    {| timedOut := timedOut s; timer := timer s; publishing := publishing s;
       closing := S (closing s); promise := promise s; trace := trace s |}.

(** [client.publish(TOPIC, PAYLOAD, { qos: 1 }, callback)] *)
Definition client_publish (s : attempt) : attempt :=
  emit (APublish TOPIC PAYLOAD 1)
    {| timedOut := timedOut s; timer := timer s;
       publishing := S (publishing s);
       closing := closing s; promise := promise s; trace := trace s |}.

(** The body of the [setTimeout] callback.  A timer fires once, and
    not at all after [clearTimeout]. *)
Definition on_timer (s : attempt) : attempt :=
  if timer s then
    reject "connect timeout"
      (client_end
        (log (LTimedOut connectTimeout)
          {| timedOut := true; timer := false;
             publishing := publishing s; closing := closing s;
             promise := promise s; trace := trace s |}))
  else s.

(** [client.on('connect', ...)] *)
Definition on_connect (s : attempt) : attempt :=
  if timedOut s then s
  else client_publish (log (LConnected TOPIC) (clearTimeout s)).

(** The callback handed to [client.publish]. *)
Definition on_published (err : option error) (s : attempt) : attempt :=
  match publishing s with
  | O => s
  | S n =>
      let s' := {| timedOut := timedOut s; timer := timer s;
                   publishing := n; closing := closing s;
                   promise := promise s; trace := trace s |} in
      match err with
      | Some e => reject e (client_end (log (LPublishError e) s'))
      | None => client_end_then_resolve (log (LPublished PAYLOAD TOPIC) s')
      end
  end.

(** The callback handed to [client.end] on the success path. *)
Definition on_closed (s : attempt) : attempt :=
  match closing s with
  | O => s
  | S n =>
      resolve {| timedOut := timedOut s; timer := timer s;
                 publishing := publishing s; closing := n;
                 promise := promise s; trace := trace s |}
  end.

(** [client.on('error', ...)] *)
Definition on_error (e : error) (s : attempt) : attempt :=
  if timedOut s then s
  else reject e (client_end (log (LErrorEvent e) (clearTimeout s))).

(** [client.stream.on('response', ...)]: diagnostics only. *)
Definition on_response (status : Z) (has_headers : bool) (s : attempt)
  : attempt :=
  let s' := log (LResponse status) s in
  if has_headers then log LResponseHeaders s' else s'.

Definition handle (ev : event) (s : attempt) : attempt :=
  match ev with
  | EvTimer => on_timer s
  | EvConnect => on_connect s
  | EvError e => on_error e s
  | EvPublished err => on_published err s
  | EvClosed => on_closed s
  | EvResponse status h => on_response status h s
  end.

Definition connect_options : options :=
  {| username := USER; password := PASS;
     opt_connectTimeout := connectTimeout; reconnectPeriod := 0;
     headers := wsHeaders |}.

(** The synchronous part of the promise executor: log, connect, arm
    the timer, register the handlers. *)
Definition publishOnce_start : attempt :=
  {| timedOut := false; timer := true; publishing := 0; closing := 0;
     promise := Pending;
     trace := [ALog (LConnecting TARGET connectTimeout 0);
               AConnect TARGET connect_options;
               ASetTimeout (js_add connectTimeout (of_Z 5000))] |}.

(** Every event of the list, handled in order. *)
Definition run (evs : list event) (s : attempt) : attempt :=
  fold_left (fun s ev => handle ev s) evs s.

(** What the awaiting caller sees: events are handled until the promise
    settles, at which point the caller resumes. *)
Fixpoint until_settled (evs : list event) (s : attempt) : attempt :=
  match evs with
  | [] => s
  | ev :: evs' =>
      match promise s with
      | Pending => until_settled evs' (handle ev s)
      | _ => s
      end
  end.

(** One call of [publishOnce] as the loop sees it.  Events that the
    client of this attempt delivers after its promise has settled reach
    handlers that close over the state of this attempt only; they cannot
    change its promise and are left out of the trace of the loop. *)
Definition publishOnce (evs : list event) : attempt :=
  until_settled evs publishOnce_start.

(** ** The retry loop of the main function *)

Inductive outcome : Type :=
| Exited (code : Z)   (* [process.exit(code)] was called *)
| Returned            (* the main function ran off its end *)
| Awaiting.           (* suspended on a promise nothing settles *)

(** What follows [await publishOnce()] in the loop body; [next] is the
    rest of the loop, from the next value of the counter. *)
Definition after_attempt (n : Z) (s : attempt)
    (next : list action * outcome) : list action * outcome :=
  match promise s with
  | Pending => (trace s, Awaiting)
  | Resolved => (trace s ++ [ALog LDone; AExit 0], Exited 0)
  | Rejected e =>
      if js_lt (of_Z n) maxAttempts then
        let backoff := js_mul baseDelayMs (Math_pow2 (n - 1)) in
        (trace s ++ [ALog (LAttemptFailed n e); ALog (LWaiting backoff);
                     ASleep backoff] ++ next.1,
         next.2)
      else
        (trace s ++ [ALog (LAttemptFailed n e); ALog LAllFailed; AExit 1],
         Exited 1)
  end.

(** The [for] loop from the counter value [n]; [script] holds, for
    each call of [publishOnce] still to come, the events its client
    delivers.  With no events left the loop stays suspended in the
    attempt it has just started. *)
Fixpoint loop (n : Z) (script : list (list event))
  : list action * outcome :=
  if js_le (of_Z n) maxAttempts then
    let started := ALog (LAttempt n maxAttempts) in
    match script with
    | [] => (started :: trace (publishOnce []), Awaiting)
    | evs :: rest =>
        let r := after_attempt n (publishOnce evs) (loop (n + 1) rest) in
        (started :: r.1, r.2)
    end
  else ([], Returned).

(** The whole script: the guard on [MQTT_HOST], then the loop. *)
Definition program (script : list (list event)) : list action * outcome :=
  if truthy TARGET then loop 1 script
  else ([ALog LHostNotSet; AExit 2], Exited 2).

End Script.

(** The status the process ends with: the argument of [process.exit], or
    0 when the main function returns and nothing is left to run.  While
    the script is suspended in an attempt it has called [process.exit]
    nowhere; whether the process then stays alive or ends by itself
    (with status 0, once the client leaves nothing in the event loop) is
    up to the client library, so no status is given for [Awaiting]. *)
Definition exit_code (o : outcome) : option Z :=
  match o with
  | Exited c => Some c
  | Returned => Some 0%Z
  | Awaiting => None
  end.

(** ** Reading a trace *)

(** The ordinals of the attempts a trace starts, in order. *)
Definition attempt_ordinals (tr : list action) : list Z :=
  omap (fun a => match a with ALog (LAttempt n _) => Some n | _ => None end) tr.

(** How often a kind of action occurs in a trace. *)
Definition count (p : action -> bool) (tr : list action) : nat :=
  length (List.filter p tr).

Definition is_connect (a : action) : bool :=
  match a with AConnect _ _ => true | _ => false end.

Definition is_timeout_log (a : action) : bool :=
  match a with ALog (LTimedOut _) => true | _ => false end.

Definition is_error_log (a : action) : bool :=
  match a with ALog (LErrorEvent _) => true | _ => false end.

Definition is_set_timeout (a : action) : bool :=
  match a with ASetTimeout _ => true | _ => false end.

Definition is_end (a : action) : bool :=
  match a with AEnd _ _ => true | _ => false end.

Definition is_settle (a : action) : bool :=
  match a with AResolve | AReject _ => true | _ => false end.

(** The actions the loop itself performs, as opposed to [publishOnce]. *)
Definition is_loop_action (a : action) : bool :=
  match a with
  | ALog (LAttempt _ _) | ALog LDone | ALog (LAttemptFailed _ _)
  | ALog (LWaiting _) | ALog LAllFailed | ALog LHostNotSet
  | ASleep _ | AExit _ => true
  | _ => false
  end.

(** Reading a trace from the left: no call of [resolve] or [reject]
    before a call of [client.end]; [closed] tells whether [client.end]
    was called already. *)
Fixpoint closed_before_settling (closed : bool) (tr : list action) : bool :=
  match tr with
  | [] => true
  | a :: tr' =>
      (negb (is_settle a) || closed)
      && closed_before_settling (closed || is_end a) tr'
  end.

(** What holds of the closure state of an attempt at every moment: the
    timeout body has run exactly when [timedOut] is set, at which point
    the timer is spent and no connect or error handler has run before;
    and as long as the timer is armed nothing has happened yet. *)
Definition timer_inv (s : attempt) : Prop :=
  (timedOut s = false -> count is_timeout_log (trace s) = 0%nat) /\
  (timedOut s = true ->
   timer s = false /\ publishing s = 0%nat /\ closing s = 0%nat /\
   count is_error_log (trace s) = 0%nat /\
   count is_timeout_log (trace s) = 1%nat /\
   promise s = Rejected "connect timeout") /\
  (timer s = true ->
   timedOut s = false /\ publishing s = 0%nat /\ closing s = 0%nat /\
   count is_error_log (trace s) = 0%nat /\
   promise s = Pending).

(** No settlement before [client.end], and a pending [client.end]
    callback means [client.end] was called. *)
Definition closes_first (s : attempt) : Prop :=
  closed_before_settling false (trace s) = true /\
  (closing s <> 0%nat -> existsb is_end (trace s) = true) /\
  (promise s <> Pending -> existsb is_end (trace s) = true).

(** The number of calls of [mqtt.connect] in a trace. *)
Definition connects (tr : list action) : nat := count is_connect tr.

(** Reading a trace from the left: [busy] tells whether an attempt is
    in flight, that is, whether [mqtt.connect] was called and neither
    [resolve] nor [reject] since. *)
Definition busy_after (busy : bool) (tr : list action) : bool :=
  fold_left (fun b a => is_connect a || (b && negb (is_settle a))) tr busy.

(** No call of [mqtt.connect] while an attempt is in flight. *)
Fixpoint one_at_a_time (busy : bool) (tr : list action) : bool :=
  match tr with
  | [] => true
  | a :: tr' =>
      negb (is_connect a && busy)
      && one_at_a_time (is_connect a || (busy && negb (is_settle a))) tr'
  end.

(** A number that is the integer [N]. *)
Definition is_int (m : jsnum) (N : Z) : Prop :=
  match m with
  | Fin q => (q == inject_Z N)%Q
  | _ => False
  end.

(** An attempt that fails: its promise is rejected. *)
Definition fails (Number : string -> jsnum) (env : gmap string string)
    (evs : list event) : Prop :=
  exists e, promise (publishOnce Number env evs) = Rejected e.

(** ** Further readings of traces and events *)

Definition is_exit (a : action) : bool :=
  match a with AExit _ => true | _ => false end.

Definition is_response_log (a : action) : bool :=
  match a with
  | ALog (LResponse _) | ALog LResponseHeaders => true
  | _ => false
  end.

Definition is_response (ev : event) : bool :=
  match ev with EvResponse _ _ => true | _ => false end.

(** The three events that race at the start of an attempt. *)
Definition races (ev : event) : bool :=
  match ev with EvTimer | EvConnect | EvError _ => true | _ => false end.

(** The events that can settle an attempt once it is connected. *)
Definition settles (ev : event) : bool :=
  match ev with EvError _ | EvPublished _ => true | _ => false end.

(** The delays handed to [sleep], in order, and their sum. *)
Definition sleeps (tr : list action) : list jsnum :=
  omap (fun a => match a with ASleep ms => Some ms | _ => None end) tr.


(** An action that uses the configuration and nothing else: a connect
    goes to [TARGET] with the options of the script, the timer is armed
    for [connectTimeout + 5000], a publish sends [PAYLOAD] to [TOPIC]
    with quality of service 1, and [client.end] is always forced. *)
Definition configured (Number : string -> jsnum) (env : gmap string string)
    (a : action) : Prop :=
  match a with
  | AConnect t o => t = TARGET env /\ o = connect_options Number env
  | ASetTimeout ms => ms = js_add (connectTimeout Number env) (of_Z 5000)
  | APublish t p q => t = TOPIC env /\ p = PAYLOAD env /\ q = 1%Z
  | AEnd force _ => force = true
  | _ => True
  end.

(** The state of an attempt in which nothing has happened yet. *)
Definition pristine (s : attempt) : Prop :=
  timedOut s = false /\ timer s = true /\ publishing s = 0%nat /\
  closing s = 0%nat /\ promise s = Pending /\
  existsb is_end (trace s) = false.

(** ** Sample inputs *)

(** A conversion that agrees with the builtin on the strings of decimal
    digits, which is all the samples below contain; any other string is
    sent to NaN here. *)
Fixpoint digits_value (acc : Z) (s : string) : option Z :=
  match s with
  | EmptyString => Some acc
  | String c s' =>
      let d := (Z.of_nat (Ascii.nat_of_ascii c) - 48)%Z in
      if (0 <=? d)%Z && (d <=? 9)%Z then digits_value (10 * acc + d)%Z s'
      else None
  end.

Definition sample_Number (s : string) : jsnum :=
  match digits_value 0 s with
  | Some z => of_Z z
  | None => NaN
  end.

Definition sample_env : gmap string string :=
  <["MQTT_HOST" := "wss://broker.example/mqtt"]>
    (<["MQTT_PATH" := "releases"]>
      (<["MQTT_ATTEMPTS" := "2"]>
        (<["MQTT_RETRY_DELAY_MS" := "100"]> ∅))).

Definition unreachable : list event := [EvError "ECONNREFUSED"].
Definition delivered : list event := [EvConnect; EvPublished None; EvClosed].

(** An environment in which one access variable is set to the empty
    string, as a CI runner passes a secret that is not defined. *)
Definition env_empty_client_id : gmap string string :=
  <["MQTT_HOST" := "wss://broker.example/mqtt"]>
    (<["CF_ACCESS_CLIENT_ID" := ""]>
      (<["CF_ACCESS_CLIENT_SECRET" := "s3cret"]> ∅)).

Definition env_both_access : gmap string string :=
  <["MQTT_HOST" := "wss://broker.example/mqtt"]>
    (<["CF_ACCESS_CLIENT_ID" := "id.access"]>
      (<["CF_ACCESS_CLIENT_SECRET" := "s3cret"]> ∅)).

Definition env_empty_host : gmap string string :=
  <["MQTT_HOST" := ""]> (<["MQTT_PATH" := "releases"]> ∅).

Definition env_zero_attempts : gmap string string :=
  <["MQTT_HOST" := "wss://broker.example/mqtt"]>
    (<["MQTT_ATTEMPTS" := "0"]> ∅).

(** A conversion that also knows the string 2.5, for the samples with a
    budget that is not an integer. *)
Definition sample_Number_half (s : string) : jsnum :=
  if String.eqb s "2.5" then Fin (5 # 2) else sample_Number s.

Definition env_fractional_budget : gmap string string :=
  <["MQTT_HOST" := "wss://broker.example/mqtt"]>
    (<["MQTT_ATTEMPTS" := "2.5"]>
      (<["MQTT_RETRY_DELAY_MS" := "100"]> ∅)).


Definition env_empty_host_zero_attempts : gmap string string :=
  <["MQTT_HOST" := ""]> (<["MQTT_ATTEMPTS" := "0"]> ∅).

(** * Properties *)

Example ex_two_failures :
  program sample_Number sample_env [unreachable; unreachable] =
  ([ALog (LAttempt 1 (of_Z 2));
    ALog (LConnecting (Some "wss://broker.example/mqtt") (of_Z 15000) 0);
    AConnect (Some "wss://broker.example/mqtt")
      (connect_options sample_Number sample_env);
    ASetTimeout (of_Z 20000);
    AClearTimeout; ALog (LErrorEvent "ECONNREFUSED"); AEnd true false;
    AReject "ECONNREFUSED";
    ALog (LAttemptFailed 1 "ECONNREFUSED"); ALog (LWaiting (of_Z 100));
    ASleep (of_Z 100);
    ALog (LAttempt 2 (of_Z 2));
    ALog (LConnecting (Some "wss://broker.example/mqtt") (of_Z 15000) 0);
    AConnect (Some "wss://broker.example/mqtt")
      (connect_options sample_Number sample_env);
    ASetTimeout (of_Z 20000);
    AClearTimeout; ALog (LErrorEvent "ECONNREFUSED"); AEnd true false;
    AReject "ECONNREFUSED";
    ALog (LAttemptFailed 2 "ECONNREFUSED"); ALog LAllFailed; AExit 1],
   Exited 1).
Proof. reflexivity. Qed.

Example ex_success :
  (program sample_Number sample_env [unreachable; delivered; unreachable]).2
  = Exited 0.
Proof. reflexivity. Qed.


(** ** Numbers *)

Lemma js_le_int (a N : Z) (q : Q) :
  (q == inject_Z N)%Q -> js_le (of_Z a) (Fin q) = (a <=? N)%Z.
Proof.
  intros Hq. unfold js_le, of_Z.
  destruct (Z.leb_spec a N) as [Hle | Hgt].
  - apply Qle_bool_iff. rewrite Hq, <- Zle_Qle. exact Hle.
  - destruct (Qle_bool (inject_Z a) q) eqn:E; [| reflexivity].
    apply Qle_bool_iff in E. rewrite Hq, <- Zle_Qle in E. lia.
Qed.

Lemma js_lt_int (a N : Z) (q : Q) :
  (q == inject_Z N)%Q -> js_lt (of_Z a) (Fin q) = (a <? N)%Z.
Proof.
  intros Hq. unfold js_lt, of_Z.
  destruct (Z.ltb_spec a N) as [Hlt | Hge].
  - destruct (Qle_bool q (inject_Z a)) eqn:E; [| reflexivity].
    apply Qle_bool_iff in E. rewrite Hq, <- Zle_Qle in E. lia.
  - apply negb_false_iff, Qle_bool_iff. rewrite Hq, <- Zle_Qle. lia.
Qed.



Lemma truthy_false (v : option string) :
  truthy v = false <-> v = None \/ v = Some "".
Proof.
  destruct v as [s |]; simpl.
  - rewrite negb_false_iff, String.eqb_eq. split.
    + intros ->. now right.
    + intros [H | H]; congruence.
  - split; [now left | reflexivity].
Qed.

Lemma truthy_true (v : option string) :
  truthy v = true <-> exists s, v = Some s /\ s <> "".
Proof.
  destruct v as [s |]; simpl.
  - rewrite negb_true_iff, String.eqb_neq. split.
    + intros H. now exists s.
    + intros (s' & [= <-] & H). exact H.
  - split; [discriminate | intros (s & H & _); discriminate].
Qed.

(** ** Configuration *)

(** C9. With MQTT_ATTEMPTS, MQTT_RETRY_DELAY_MS, MQTT_CONNECT_TIMEOUT_MS
    and RELEASE_TAG absent from the environment, the attempt count is 4,
    the base backoff delay 3000 ms, the connect timeout 15000 ms and the
    payload the string "ci-test"; each default depends only on its own
    variable. *)
Theorem defaults_when_absent (Number : string -> jsnum)
    (env : gmap string string) :
  (env !! "MQTT_ATTEMPTS" = None -> maxAttempts Number env = of_Z 4) /\
  (env !! "MQTT_RETRY_DELAY_MS" = None -> baseDelayMs Number env = of_Z 3000) /\
  (env !! "MQTT_CONNECT_TIMEOUT_MS" = None ->
   connectTimeout Number env = of_Z 15000) /\
  (env !! "RELEASE_TAG" = None -> PAYLOAD env = "ci-test").
Proof.
  unfold maxAttempts, baseDelayMs, connectTimeout, PAYLOAD.
  repeat split; intros ->; reflexivity.
Qed.

(** The defaults, in an environment that sets MQTT_HOST only. *)
Lemma defaults_when_absent_witness :
  maxAttempts sample_Number {["MQTT_HOST" := "wss://broker.example/mqtt"]}
    = of_Z 4 /\
  baseDelayMs sample_Number {["MQTT_HOST" := "wss://broker.example/mqtt"]}
    = of_Z 3000 /\
  connectTimeout sample_Number {["MQTT_HOST" := "wss://broker.example/mqtt"]}
    = of_Z 15000 /\
  PAYLOAD {["MQTT_HOST" := "wss://broker.example/mqtt"]} = "ci-test".
Proof.
  destruct (defaults_when_absent sample_Number
              {["MQTT_HOST" := "wss://broker.example/mqtt"]})
    as (H1 & H2 & H3 & H4).
  exact (conj (H1 eq_refl) (conj (H2 eq_refl) (conj (H3 eq_refl) (H4 eq_refl)))).
Defined.

(** C6, as stated, fails: both variables are present in the environment,
    one of them as the empty string, and neither header is attached. *)
Lemma access_headers_present_but_empty :
  env_empty_client_id !! "CF_ACCESS_CLIENT_ID" = Some "" /\
  env_empty_client_id !! "CF_ACCESS_CLIENT_SECRET" = Some "s3cret" /\
  wsHeaders env_empty_client_id !! "CF-Access-Client-Id" = None /\
  wsHeaders env_empty_client_id !! "CF-Access-Client-Secret" = None.
Proof. repeat split. Qed.

(** C6 (amended). The CF-Access-Client-Id and CF-Access-Client-Secret
    headers are attached to the options handed to the transport if and
    only if CF_ACCESS_CLIENT_ID and CF_ACCESS_CLIENT_SECRET are both set
    to non-empty strings, and then they carry the two values; in every
    other case (one of them absent or empty) neither header is there, and
    the attempt starts all the same, with the two fixed headers. *)
Theorem access_headers_iff_both_nonempty (Number : string -> jsnum)
    (env : gmap string string) :
  let both := truthy (env !! "CF_ACCESS_CLIENT_ID")
              && truthy (env !! "CF_ACCESS_CLIENT_SECRET") in
  let hs := headers (connect_options Number env) in
  (is_Some (hs !! "CF-Access-Client-Id") <-> both = true) /\
  (is_Some (hs !! "CF-Access-Client-Secret") <-> both = true) /\
  (both = true ->
   hs !! "CF-Access-Client-Id" = env !! "CF_ACCESS_CLIENT_ID" /\
   hs !! "CF-Access-Client-Secret" = env !! "CF_ACCESS_CLIENT_SECRET") /\
  (both = false ->
   hs !! "CF-Access-Client-Id" = None /\
   hs !! "CF-Access-Client-Secret" = None) /\
  hs !! "sec-websocket-protocol" = Some "mqtt" /\
  hs !! "User-Agent" = Some "github-selfhosted-mqtt-publisher/1.0" /\
  trace (publishOnce_start Number env) =
    [ALog (LConnecting (TARGET env) (connectTimeout Number env) 0);
     AConnect (TARGET env) (connect_options Number env);
     ASetTimeout (js_add (connectTimeout Number env) (of_Z 5000))].
Proof.
  cbv zeta. split_and!; try reflexivity;
    unfold connect_options, wsHeaders; cbn [headers];
    destruct (env !! "CF_ACCESS_CLIENT_ID") as [id |];
    destruct (env !! "CF_ACCESS_CLIENT_SECRET") as [secret |];
    cbn [truthy andb];
    try destruct (negb (String.eqb id "")); cbn [andb];
    try destruct (negb (String.eqb secret ""));
    repeat match goal with
           | |- _ /\ _ => split
           | |- _ <-> _ => split
           | |- _ -> _ => intros ?
           end;
    try discriminate; try reflexivity; try (by eexists);
    match goal with
    | H : is_Some _ |- _ => destruct H as [? H]; vm_compute in H; discriminate
    end.
Qed.

(** Both access variables set and non-empty: both headers attached. *)
Lemma access_headers_iff_both_nonempty_witness :
  headers (connect_options sample_Number env_both_access)
    !! "CF-Access-Client-Id" = Some "id.access" /\
  headers (connect_options sample_Number env_both_access)
    !! "CF-Access-Client-Secret" = Some "s3cret".
Proof.
  destruct (access_headers_iff_both_nonempty sample_Number env_both_access)
    as (_ & _ & H & _).
  exact (H eq_refl).
Defined.

(** ** The guard on MQTT_HOST *)

(** The loop leaves through [process.exit(0)], through [process.exit(1)],
    by running off its end, or not at all. *)
Lemma loop_outcome (Number : string -> jsnum) (env : gmap string string)
    (script : list (list event)) (n : Z) :
  let o := (loop Number env n script).2 in
  o = Exited 0 \/ o = Exited 1 \/ o = Returned \/ o = Awaiting.
Proof.
  cbv zeta. revert n. induction script as [| evs rest IH]; intros n;
    cbn [loop];
    destruct (js_le (of_Z n) (maxAttempts Number env)); cbn [snd]; auto.
  unfold after_attempt.
  destruct (promise _); cbn [snd]; auto.
  destruct (js_lt _ _); cbn [snd]; auto.
Qed.

(** C4, as stated, fails in its second half: MQTT_HOST is present in the
    environment, as the empty string, and the process still ends with
    exit code 2. *)
Lemma empty_host_exits_2 :
  env_empty_host !! "MQTT_HOST" = Some "" /\
  program sample_Number env_empty_host [delivered]
  = ([ALog LHostNotSet; AExit 2], Exited 2).
Proof. split; reflexivity. Qed.

(** C4 (amended). If MQTT_HOST is absent or the empty string, the process
    logs the missing variable and ends with exit code 2 without any call
    of [mqtt.connect]; and exit code 2 is produced in that case only. *)
Theorem missing_host_exit_2 (Number : string -> jsnum)
    (env : gmap string string) (script : list (list event)) :
  (env !! "MQTT_HOST" = None \/ env !! "MQTT_HOST" = Some "" ->
   program Number env script = ([ALog LHostNotSet; AExit 2], Exited 2) /\
   connects (program Number env script).1 = 0%nat) /\
  (exit_code (program Number env script).2 = Some 2%Z ->
   env !! "MQTT_HOST" = None \/ env !! "MQTT_HOST" = Some "").
Proof.
  unfold program, TARGET. split.
  - intros H. apply truthy_false in H. rewrite H. split; reflexivity.
  - destruct (truthy (env !! "MQTT_HOST")) eqn:E.
    + intros H. exfalso.
      destruct (loop_outcome Number env script 1) as [H0 | [H0 | [H0 | H0]]];
        cbv zeta in H0; rewrite H0 in H; discriminate.
    + intros _. now apply truthy_false.
Qed.

(** The empty environment: exit code 2 and no connection. *)
Lemma missing_host_exit_2_witness :
  program sample_Number (∅ : gmap string string) [delivered]
  = ([ALog LHostNotSet; AExit 2], Exited 2) /\
  connects (program sample_Number (∅ : gmap string string) [delivered]).1
  = 0%nat.
Proof.
  exact (proj1 (missing_host_exit_2 sample_Number ∅ [delivered])
           (or_introl eq_refl)).
Defined.

(** ** A budget of zero attempts *)

(** C10, as stated, fails: MQTT_HOST is set, to the empty string, and
    MQTT_ATTEMPTS is the non-empty string 0; the guard on MQTT_HOST
    comes first and the process ends with exit code 2, not 0. *)
Lemma empty_host_zero_budget_exits_2 :
  env_empty_host_zero_attempts !! "MQTT_HOST" = Some "" /\
  env_empty_host_zero_attempts !! "MQTT_ATTEMPTS" = Some "0" /\
  sample_Number "0" = of_Z 0 /\
  program sample_Number env_empty_host_zero_attempts [delivered]
  = ([ALog LHostNotSet; AExit 2], Exited 2) /\
  exit_code
    (program sample_Number env_empty_host_zero_attempts [delivered]).2
  = Some 2%Z.
Proof. split_and!; reflexivity. Qed.

(** C10 (amended). With MQTT_HOST set to a non-empty string and
    MQTT_ATTEMPTS a non-empty string that [Number] converts to 0 or to
    NaN, the loop body never runs: the trace is empty (no connection, no
    publish), the main function returns, and the process ends with
    status 0. *)
Theorem zero_or_nan_budget_exits_0 (Number : string -> jsnum)
    (env : gmap string string) (script : list (list event)) (s : string) :
  truthy (env !! "MQTT_HOST") = true ->
  env !! "MQTT_ATTEMPTS" = Some s ->
  s <> "" ->
  Number s = NaN \/ (exists q, Number s = Fin q /\ (q == 0)%Q) ->
  program Number env script = ([], Returned) /\
  exit_code (program Number env script).2 = Some 0%Z.
Proof.
  intros Hhost Hs Hne Hnum.
  assert (Hmax : maxAttempts Number env = Number s).
  { unfold maxAttempts, Number_or. rewrite Hs.
    apply String.eqb_neq in Hne. now rewrite Hne. }
  assert (Hle : js_le (of_Z 1) (maxAttempts Number env) = false).
  { rewrite Hmax. destruct Hnum as [-> | (q & -> & Hq)]; [reflexivity |].
    rewrite (js_le_int 1 0 q Hq). reflexivity. }
  assert (Hprog : program Number env script = ([], Returned)).
  { unfold program, TARGET. rewrite Hhost.
    destruct script; cbn [loop]; now rewrite Hle. }
  now rewrite Hprog.
Qed.

(** MQTT_ATTEMPTS set to the string 0. *)
Lemma zero_or_nan_budget_exits_0_witness :
  program sample_Number env_zero_attempts [delivered] = ([], Returned) /\
  exit_code (program sample_Number env_zero_attempts [delivered]).2
  = Some 0%Z.
Proof.
  refine (zero_or_nan_budget_exits_0 sample_Number env_zero_attempts
            [delivered] "0" eq_refl eq_refl _ _).
  - discriminate.
  - right. exists (inject_Z 0). split; reflexivity.
Defined.

(** ** One attempt *)

Lemma count_app (p : action -> bool) (l1 l2 : list action) :
  count p (l1 ++ l2) = (count p l1 + count p l2)%nat.
Proof. unfold count. now rewrite List.filter_app, length_app. Qed.

Lemma closed_before_settling_app (c : bool) (l1 l2 : list action) :
  closed_before_settling c (l1 ++ l2) =
  closed_before_settling c l1
  && closed_before_settling (c || existsb is_end l1) l2.
Proof.
  revert c. induction l1 as [| a l1 IH]; intros c; simpl.
  - now rewrite orb_false_r.
  - rewrite IH, orb_assoc, andb_assoc. reflexivity.
Qed.

Ltac handlers :=
  unfold handle, on_timer, on_connect, on_error, on_published, on_closed,
    on_response, reject, resolve, settle, client_end,
    client_end_then_resolve, client_publish, clearTimeout, log, emit in *;
  cbn [timedOut timer publishing closing promise trace] in *.

Lemma run_cons (Number : string -> jsnum) (env : gmap string string)
    (ev : event) (evs : list event) (s : attempt) :
  run Number env (ev :: evs) s = run Number env evs (handle Number env ev s).
Proof. reflexivity. Qed.

Lemma run_app (Number : string -> jsnum) (env : gmap string string)
    (evs1 evs2 : list event) (s : attempt) :
  run Number env (evs1 ++ evs2) s = run Number env evs2 (run Number env evs1 s).
Proof. apply fold_left_app. Qed.

Lemma run_snoc (Number : string -> jsnum) (env : gmap string string)
    (evs : list event) (ev : event) (s : attempt) :
  run Number env (evs ++ [ev]) s = handle Number env ev (run Number env evs s).
Proof. apply run_app. Qed.

Lemma until_settled_cons (Number : string -> jsnum) (env : gmap string string)
    (ev : event) (evs : list event) (s : attempt) :
  until_settled Number env (ev :: evs) s =
  match promise s with
  | Pending => until_settled Number env evs (handle Number env ev s)
  | _ => s
  end.
Proof. reflexivity. Qed.

Section Attempt.

Variable Number : string -> jsnum.
Variable env : gmap string string.

Local Abbreviation start := (publishOnce_start Number env).
Local Abbreviation handle := (handle Number env).
Local Abbreviation run := (run Number env).
Local Abbreviation until_settled := (until_settled Number env).
Local Abbreviation publishOnce := (publishOnce Number env).

(** A handler only ever adds to the trace. *)
Lemma handle_trace (ev : event) (s : attempt) :
  exists added, trace (handle ev s) = trace s ++ added
                /\ forallb (fun a => negb (is_loop_action a)) added = true
                /\ count is_connect added = 0%nat
                /\ count is_set_timeout added = 0%nat.
Proof.
  destruct s as [to tm pb cl pr tr].
  destruct ev as [| | e | [e |] | | st [|]]; handlers;
    try destruct tm; try destruct to; try destruct pb; try destruct cl;
    cbn [trace];
    rewrite <- ?app_assoc; cbn [app];
    first [ by (eexists; split; [reflexivity | repeat split])
          | by (exists []; rewrite app_nil_r; repeat split) ].
Qed.

(** A settled promise stays as it is. *)
Lemma handle_settled (ev : event) (s : attempt) :
  promise s <> Pending -> promise (handle ev s) = promise s.
Proof.
  destruct s as [to tm pb cl pr tr].
  destruct ev as [| | e | [e |] | | st [|]]; handlers;
    try destruct tm; try destruct to; try destruct pb; try destruct cl;
    cbn [promise]; destruct pr; congruence.
Qed.

Lemma run_settled (evs : list event) (s : attempt) :
  promise s <> Pending -> promise (run evs s) = promise s.
Proof.
  revert s. induction evs as [| ev evs IH]; intros s Hs; [reflexivity |].
  rewrite run_cons, IH; rewrite handle_settled; auto.
Qed.

(** The caller resumes after a prefix of the events. *)
Lemma until_settled_run (evs : list event) (s : attempt) :
  exists pre post, evs = pre ++ post /\ until_settled evs s = run pre s.
Proof.
  revert s. induction evs as [| ev evs IH]; intros s.
  - by exists [], [].
  - rewrite until_settled_cons. destruct (promise s) eqn:E.
    + destruct (IH (handle ev s)) as (pre & post & -> & ->).
      by exists (ev :: pre), post.
    + by exists [], (ev :: evs).
    + by exists [], (ev :: evs).
Qed.

(** The promise the caller sees is the promise after all the events. *)
Lemma until_settled_promise (evs : list event) (s : attempt) :
  promise (until_settled evs s) = promise (run evs s).
Proof.
  revert s. induction evs as [| ev evs IH]; intros s; [reflexivity |].
  rewrite until_settled_cons, run_cons. destruct (promise s) eqn:E.
  - apply IH.
  - symmetry. rewrite run_settled; rewrite handle_settled; congruence.
  - symmetry. rewrite run_settled; rewrite handle_settled; congruence.
Qed.

(** *** The timer and the [timedOut] flag *)

Lemma timer_inv_start : timer_inv start.
Proof. repeat split; try discriminate; reflexivity. Qed.

Lemma timer_inv_handle (ev : event) (s : attempt) :
  timer_inv s -> timer_inv (handle ev s).
Proof.
  unfold timer_inv. destruct s as [to tm pb cl pr tr].
  cbn [timedOut timer publishing closing promise trace].
  intros (H1 & H2 & H3).
  destruct ev as [| | e | [e |] | | st [|]]; handlers;
    destruct tm; destruct to; destruct pb; destruct cl;
    try (destruct (H2 eq_refl) as (? & ? & ? & ? & ? & ?));
    try (destruct (H3 eq_refl) as (? & ? & ? & ? & ?));
    try discriminate; subst;
    cbn [timedOut timer publishing closing promise trace];
    rewrite ?count_app; unfold count in *;
    cbn [List.filter is_timeout_log is_error_log length];
    (split; [| split]); intros Hf; try discriminate Hf;
    repeat split; auto with lia.
Qed.

Lemma timer_inv_run (evs : list event) : timer_inv (run evs start).
Proof.
  induction evs as [| ev evs IH] using rev_ind.
  - apply timer_inv_start.
  - rewrite run_snoc. now apply timer_inv_handle.
Qed.

Lemma run_trace (evs : list event) (s : attempt) :
  exists added, trace (run evs s) = trace s ++ added
                /\ forallb (fun a => negb (is_loop_action a)) added = true
                /\ count is_connect added = 0%nat
                /\ count is_set_timeout added = 0%nat.
Proof.
  revert s. induction evs as [| ev evs IH]; intros s.
  - exists []. now rewrite app_nil_r.
  - rewrite run_cons.
    destruct (IH (handle ev s)) as (a2 & -> & F2 & C2 & T2).
    destruct (handle_trace ev s) as (a1 & -> & F1 & C1 & T1).
    exists (a1 ++ a2). rewrite app_assoc, forallb_app, !count_app, F1, F2.
    repeat split; lia.
Qed.

(** *** Closing the connection *)

Lemma closes_first_start : closes_first start.
Proof. repeat split; intros H; now contradiction H. Qed.

Lemma closes_first_handle (ev : event) (s : attempt) :
  closes_first s -> closes_first (handle ev s).
Proof.
  unfold closes_first. destruct s as [to tm pb cl pr tr].
  cbn [timedOut timer publishing closing promise trace].
  intros (H1 & H2 & H3).
  destruct ev as [| | e | [e |] | | st [|]]; handlers;
    destruct tm; destruct to; destruct pb; destruct cl;
    cbn [timedOut timer publishing closing promise trace];
    rewrite ?closed_before_settling_app, ?existsb_app, ?H1;
    cbn [closed_before_settling existsb is_settle is_end negb orb andb];
    rewrite ?orb_true_r, ?orb_false_r, ?andb_true_r;
    try (rewrite (H2 ltac:(discriminate)));
    (split; [| split]); auto; try (intros _; reflexivity);
    destruct pr; auto; intros Hp; now contradiction Hp.
Qed.

Lemma closes_first_run (evs : list event) : closes_first (run evs start).
Proof.
  induction evs as [| ev evs IH] using rev_ind.
  - apply closes_first_start.
  - rewrite run_snoc. now apply closes_first_handle.
Qed.

(** C8. Whatever the client delivers, and on each of the four ways an
    attempt ends (close callback after a publish, publish error,
    transport error, timeout), [client.end] is called before [resolve]
    or [reject]: in the trace of an attempt no settlement comes before a
    call of [client.end], and a settled attempt has called it.  This
    holds both for the events up to the moment the caller resumes and
    for the events that come later. *)
Theorem connection_closed_before_settling (evs : list event) :
  closed_before_settling false (trace (run evs start)) = true /\
  (promise (run evs start) <> Pending ->
   existsb is_end (trace (run evs start)) = true) /\
  closed_before_settling false (trace (publishOnce evs)) = true /\
  (promise (publishOnce evs) <> Pending ->
   existsb is_end (trace (publishOnce evs)) = true).
Proof.
  destruct (closes_first_run evs) as (H1 & _ & H3).
  change (publishOnce evs) with (until_settled evs start).
  destruct (until_settled_run evs start) as (pre & post & _ & ->).
  destruct (closes_first_run pre) as (H1' & _ & H3').
  auto.
Qed.

(** *** Connect, publish, close *)

(** An outstanding publish callback needs a connect event, an
    outstanding close callback a publish acknowledgement, and a resolved
    promise the close callback. *)
Lemma callbacks_in_order (evs : list event) :
  let s := run evs start in
  (publishing s <> 0%nat -> In EvConnect evs) /\
  (closing s <> 0%nat -> In (EvPublished None) evs /\ In EvConnect evs) /\
  (promise s = Resolved ->
   In EvClosed evs /\ In (EvPublished None) evs /\ In EvConnect evs).
Proof.
  cbv zeta. induction evs as [| ev evs IH] using rev_ind.
  - split_and!; intros H; try (now contradiction H); discriminate H.
  - rewrite run_snoc. destruct (run evs start) as [to tm pb cl pr tr].
    cbn [timedOut timer publishing closing promise trace] in IH.
    destruct IH as (H1 & H2 & H3). rewrite !in_app_iff. cbn [In].
    destruct ev as [| | e | [e |] | | st [|]]; handlers;
      destruct tm; destruct to; destruct pb; destruct cl;
      cbn [timedOut timer publishing closing promise trace];
      (split; [| split]); intros Hf;
      try (now contradiction Hf);
      try (destruct pr; try discriminate Hf);
      try (destruct (H2 ltac:(discriminate)));
      try (destruct (H3 eq_refl) as (? & ? & ?));
      try (specialize (H1 ltac:(discriminate)));
      auto 6.
Qed.

(** C7. Once a connect event is handled (before any timeout), the
    configured payload is published to the configured topic with
    quality of service 1.  A publish callback carrying an error logs it,
    calls [client.end(true)] and rejects the attempt with that error.  A
    publish callback without error calls [client.end(true, callback)]
    and leaves the promise as it is; the promise resolves in that close
    callback, and an attempt never resolves unless the close callback
    has run (after a publish acknowledgement, after a connect). *)
Theorem publish_qos1_then_close :
  (forall s : attempt, timedOut s = false ->
     trace (handle EvConnect s) =
       trace s ++ [AClearTimeout; ALog (LConnected (TOPIC env));
                   APublish (TOPIC env) (PAYLOAD env) 1] /\
     publishing (handle EvConnect s) = S (publishing s) /\
     promise (handle EvConnect s) = promise s) /\
  (forall (s : attempt) (e : error), publishing s <> 0%nat ->
     trace (handle (EvPublished (Some e)) s) =
       trace s ++ [ALog (LPublishError e); AEnd true false; AReject e] /\
     (promise s = Pending ->
      promise (handle (EvPublished (Some e)) s) = Rejected e)) /\
  (forall s : attempt, publishing s <> 0%nat ->
     trace (handle (EvPublished None) s) =
       trace s ++ [ALog (LPublished (PAYLOAD env) (TOPIC env));
                   AEnd true true] /\
     closing (handle (EvPublished None) s) = S (closing s) /\
     promise (handle (EvPublished None) s) = promise s) /\
  (forall s : attempt, closing s <> 0%nat ->
     trace (handle EvClosed s) = trace s ++ [AResolve] /\
     (promise s = Pending -> promise (handle EvClosed s) = Resolved)) /\
  (forall evs : list event, promise (publishOnce evs) = Resolved ->
     In EvClosed evs /\ In (EvPublished None) evs /\ In EvConnect evs).
Proof.
  split_and!.
  - intros [to tm pb cl pr tr] H. handlers. subst to.
    cbn [trace publishing promise]. now rewrite <- !app_assoc.
  - intros [to tm pb cl pr tr] e H. handlers. destruct pb; [easy |].
    cbn [trace promise]. rewrite <- !app_assoc. split; [easy |].
    now intros ->.
  - intros [to tm pb cl pr tr] H. handlers. destruct pb; [easy |].
    cbn [trace closing promise]. now rewrite <- !app_assoc.
  - intros [to tm pb cl pr tr] H. handlers. destruct cl; [easy |].
    cbn [trace promise]. split; [easy |]. now intros ->.
  - intros evs H.
    change (publishOnce evs) with (until_settled evs start) in H.
    rewrite until_settled_promise in H.
    now apply (callbacks_in_order evs).
Qed.

(** *** Settling once *)

(** No handler arms the timer again. *)
Lemma handle_timer_spent (ev : event) (s : attempt) :
  timer s = false -> timer (handle ev s) = false.
Proof.
  destruct s as [to tm pb cl pr tr]. cbn [timer]. intros ->.
  destruct ev as [| | e | [e |] | | st [|]]; handlers;
    destruct to; destruct pb; destruct cl; reflexivity.
Qed.

(** Handling a connect or an error event leaves the timer disarmed. *)
Lemma timer_spent (evs : list event) :
  In EvConnect evs \/ (exists e, In (EvError e) evs) ->
  timer (run evs start) = false.
Proof.
  induction evs as [| ev evs IH] using rev_ind.
  - intros [[] | (e & [])].
  - intros H. rewrite run_snoc.
    assert (Hcase : (In EvConnect evs \/ (exists e, In (EvError e) evs))
                    \/ ev = EvConnect \/ (exists e, ev = EvError e)).
    { destruct H as [H | (e & H)]; apply in_app_iff in H;
        destruct H as [H | [H | []]]; eauto. }
    destruct Hcase as [Hin | Hev].
    + apply handle_timer_spent. auto.
    + pose proof (timer_inv_run evs) as (_ & H2 & _).
      destruct (run evs start) as [to tm pb cl pr tr].
      cbn [timedOut timer publishing closing promise trace] in H2.
      destruct Hev as [-> | (e & ->)]; handlers; destruct to;
        try reflexivity; now destruct (H2 eq_refl).
Qed.

(** C5 (amended). Within one attempt: the timer is armed once, for
    [connectTimeout + 5000] ms, and its body runs at most once; the
    timeout path and the transport-error path never both run; a settled
    promise is not changed by any later event; once the timeout has
    fired the attempt is rejected with the timeout error and every later
    connect, error, publish or close event is ignored altogether; once a
    connect or an error event has been handled the timer is cancelled
    and its firing does nothing; an error or a timeout that comes first
    decides the attempt.  (A connect event decides nothing by itself.) *)
Theorem settled_once_timeout_exclusive (evs : list event) :
  let s := run evs start in
  (count is_set_timeout (trace s) = 1%nat /\
   In (ASetTimeout (js_add (connectTimeout Number env) (of_Z 5000)))
      (trace s)) /\
  (count is_timeout_log (trace s) <= 1)%nat /\
  (count is_timeout_log (trace s) = 0%nat \/
   count is_error_log (trace s) = 0%nat) /\
  (forall ev : event, promise s <> Pending ->
     promise (handle ev s) = promise s) /\
  (timedOut s = true ->
     promise s = Rejected "connect timeout" /\
     forall ev : event, (forall st h, ev <> EvResponse st h) ->
       handle ev s = s) /\
  (In EvConnect evs \/ (exists e, In (EvError e) evs) ->
     handle EvTimer s = s) /\
  (forall e rest, evs = EvError e :: rest -> promise s = Rejected e) /\
  (forall rest, evs = EvTimer :: rest ->
     promise s = Rejected "connect timeout").
Proof.
  cbv zeta. pose proof (timer_inv_run evs) as (J1 & J2 & J3).
  split_and!.
  - destruct (run_trace evs start) as (added & -> & _ & _ & T).
    rewrite count_app, T. reflexivity.
  - destruct (run_trace evs start) as (added & -> & _).
    apply in_app_iff. left. cbn. auto.
  - destruct (timedOut (run evs start)).
    + destruct (J2 eq_refl) as (_ & _ & _ & _ & -> & _). lia.
    + rewrite (J1 eq_refl). lia.
  - destruct (timedOut (run evs start)).
    + destruct (J2 eq_refl) as (_ & _ & _ & -> & _). now right.
    + rewrite (J1 eq_refl). now left.
  - intros ev. apply handle_settled.
  - intros Hto. destruct (J2 Hto) as (Htm & Hpb & Hcl & _ & _ & Hpr).
    split; [exact Hpr |]. intros ev Hev.
    destruct (run evs start) as [to tm pb cl pr tr].
    cbn [timedOut timer publishing closing promise trace] in *. subst.
    destruct ev as [| | e | [e |] | | st h]; handlers; try reflexivity.
    now contradiction (Hev st h).
  - intros H. apply timer_spent in H.
    destruct (run evs start) as [to tm pb cl pr tr].
    cbn [timer] in H. subst tm. reflexivity.
  - intros e rest ->. rewrite run_cons, run_settled; [reflexivity |].
    discriminate.
  - intros rest ->. rewrite run_cons, run_settled; [reflexivity |].
    discriminate.
Qed.

(** A settled promise was settled by a call in the trace. *)
Lemma settle_in_trace (evs : list event) :
  promise (run evs start) <> Pending ->
  existsb is_settle (trace (run evs start)) = true.
Proof.
  induction evs as [| ev evs IH] using rev_ind.
  - intros H. now contradiction H.
  - rewrite run_snoc. destruct (run evs start) as [to tm pb cl pr tr].
    cbn [promise trace] in IH.
    destruct ev as [| | e | [e |] | | st [|]]; handlers;
      destruct tm; destruct to; destruct pb; destruct cl;
      cbn [promise trace]; rewrite ?existsb_app;
      cbn [existsb is_settle]; rewrite ?orb_true_r, ?orb_false_r;
      try reflexivity; try exact IH; intros _; reflexivity.
Qed.

End Attempt.

(** C5, as stated, fails: a connect event that comes first does not
    decide the attempt, and an error event that comes after it is not
    ignored: it rejects the attempt and closes the connection. *)
Lemma error_after_connect_not_ignored :
  promise (run sample_Number sample_env [EvConnect]
             (publishOnce_start sample_Number sample_env)) = Pending /\
  run sample_Number sample_env [EvConnect; EvError "ECONNRESET"]
    (publishOnce_start sample_Number sample_env) =
  {| timedOut := false; timer := false; publishing := 1; closing := 0;
     promise := Rejected "ECONNRESET";
     trace :=
       [ALog (LConnecting (Some "wss://broker.example/mqtt") (of_Z 15000) 0);
        AConnect (Some "wss://broker.example/mqtt")
          (connect_options sample_Number sample_env);
        ASetTimeout (of_Z 20000);
        AClearTimeout; ALog (LConnected (Some "releases"));
        APublish (Some "releases") "ci-test" 1;
        AClearTimeout; ALog (LErrorEvent "ECONNRESET"); AEnd true false;
        AReject "ECONNRESET"] |}.
Proof. split; reflexivity. Qed.

(** A timeout first: the connect and the error that follow change
    nothing. *)
Lemma settled_once_timeout_exclusive_witness :
  promise (run sample_Number sample_env [EvTimer; EvConnect; EvError "late"]
             (publishOnce_start sample_Number sample_env))
  = Rejected "connect timeout" /\
  handle sample_Number sample_env EvConnect
    (run sample_Number sample_env [EvTimer; EvConnect; EvError "late"]
       (publishOnce_start sample_Number sample_env))
  = run sample_Number sample_env [EvTimer; EvConnect; EvError "late"]
      (publishOnce_start sample_Number sample_env).
Proof.
  destruct (settled_once_timeout_exclusive sample_Number sample_env
              [EvTimer; EvConnect; EvError "late"])
    as (_ & _ & _ & _ & H & _).
  destruct (H eq_refl) as (Hp & Hign).
  split; [exact Hp | apply Hign; discriminate].
Defined.

(** The successful attempt resolved in its close callback. *)
Lemma publish_qos1_then_close_witness :
  In EvClosed delivered /\ In (EvPublished None) delivered
  /\ In EvConnect delivered.
Proof.
  destruct (publish_qos1_then_close sample_Number sample_env)
    as (_ & _ & _ & _ & H).
  exact (H delivered eq_refl).
Defined.

Example ex_delivered :
  publishOnce sample_Number sample_env delivered =
  {| timedOut := false; timer := false; publishing := 0; closing := 0;
     promise := Resolved;
     trace :=
       [ALog (LConnecting (Some "wss://broker.example/mqtt") (of_Z 15000) 0);
        AConnect (Some "wss://broker.example/mqtt")
          (connect_options sample_Number sample_env);
        ASetTimeout (of_Z 20000);
        AClearTimeout; ALog (LConnected (Some "releases"));
        APublish (Some "releases") "ci-test" 1;
        ALog (LPublished "ci-test" (Some "releases")); AEnd true true;
        AResolve] |}.
Proof. reflexivity. Qed.

Example ex_timeout :
  trace (publishOnce sample_Number sample_env [EvTimer; EvConnect]) =
  [ALog (LConnecting (Some "wss://broker.example/mqtt") (of_Z 15000) 0);
   AConnect (Some "wss://broker.example/mqtt")
     (connect_options sample_Number sample_env);
   ASetTimeout (of_Z 20000);
   ALog (LTimedOut (of_Z 15000)); AEnd true false;
   AReject "connect timeout"].
Proof. reflexivity. Qed.

(** ** The retry loop *)

Lemma split_at (x : action) (l1 l2 pre post : list action) :
  l1 ++ l2 = pre ++ x :: post -> ~ In x l1 ->
  exists pre2, pre = l1 ++ pre2 /\ l2 = pre2 ++ x :: post.
Proof.
  revert pre. induction l1 as [| a l1 IH]; intros pre H Hx.
  - by exists pre.
  - destruct pre as [| b pre]; cbn [app] in H; injection H as -> H.
    + exfalso. apply Hx. now left.
    + destruct (IH pre H) as (pre2 & -> & ->).
      * intros Hin. apply Hx. now right.
      * by exists pre2.
Qed.


Lemma attempt_ordinals_app (l1 l2 : list action) :
  attempt_ordinals (l1 ++ l2) = attempt_ordinals l1 ++ attempt_ordinals l2.
Proof. apply omap_app. Qed.

Lemma attempt_ordinals_not_loop (l : list action) :
  forallb (fun a => negb (is_loop_action a)) l = true ->
  attempt_ordinals l = [].
Proof.
  induction l as [| a l IH]; [reflexivity |]. cbn [forallb].
  intros [Ha Hl]%andb_true_iff. specialize (IH Hl).
  destruct a as [[] | | | | | | | | |]; try discriminate Ha; exact IH.
Qed.

Lemma one_at_a_time_app (b : bool) (l1 l2 : list action) :
  one_at_a_time b (l1 ++ l2) =
  one_at_a_time b l1 && one_at_a_time (busy_after b l1) l2.
Proof.
  revert b. induction l1 as [| a l1 IH]; intros b; [reflexivity |].
  cbn [app one_at_a_time]. rewrite IH, andb_assoc. reflexivity.
Qed.

Lemma busy_after_app (b : bool) (l1 l2 : list action) :
  busy_after b (l1 ++ l2) = busy_after (busy_after b l1) l2.
Proof. apply fold_left_app. Qed.

Lemma one_at_a_time_no_connect (b : bool) (l : list action) :
  count is_connect l = 0%nat -> one_at_a_time b l = true.
Proof.
  revert b. induction l as [| a l IH]; intros b H; [reflexivity |].
  unfold count in *. cbn [List.filter one_at_a_time] in *.
  destruct (is_connect a); [discriminate H |].
  cbn [andb negb orb]. now apply IH.
Qed.

Lemma busy_after_settle (b : bool) (l : list action) :
  count is_connect l = 0%nat -> existsb is_settle l = true ->
  busy_after b l = false.
Proof.
  assert (Hfalse : forall l, count is_connect l = 0%nat ->
                             busy_after false l = false).
  { clear. induction l as [| a l IH]; intros H; [reflexivity |].
    unfold count in *. cbn [List.filter] in H. unfold busy_after in *.
    cbn [fold_left]. destruct (is_connect a); [discriminate H |].
    now apply IH. }
  revert b. induction l as [| a l IH]; intros b H Hs; [discriminate Hs |].
  assert (Hl : count is_connect l = 0%nat /\ is_connect a = false).
  { unfold count in *. cbn [List.filter] in H.
    destruct (is_connect a); [discriminate H | auto]. }
  destruct Hl as [Hl Ha]. change (busy_after b (a :: l))
    with (busy_after (is_connect a || (b && negb (is_settle a))) l).
  rewrite Ha. cbn [existsb orb] in *.
  destruct (is_settle a); cbn [negb orb] in *.
  - rewrite andb_false_r. now apply Hfalse.
  - now apply IH.
Qed.

Section Loop.

Variable Number : string -> jsnum.
Variable env : gmap string string.

Local Abbreviation start := (publishOnce_start Number env).
Local Abbreviation publishOnce := (publishOnce Number env).
Local Abbreviation maxAttempts := (maxAttempts Number env).
Local Abbreviation baseDelayMs := (baseDelayMs Number env).
Local Abbreviation loop := (loop Number env).
Local Abbreviation program := (program Number env).
Local Abbreviation fails := (fails Number env).

(** What one call of [publishOnce] leaves in the trace: the three
    actions of its start, then actions of its handlers only. *)
Lemma publishOnce_trace (evs : list event) :
  exists added, trace (publishOnce evs) = trace start ++ added
                /\ forallb (fun a => negb (is_loop_action a)) added = true
                /\ count is_connect added = 0%nat.
Proof.
  change (publishOnce evs) with (until_settled Number env evs start).
  destruct (until_settled_run Number env evs start) as (pre & post & _ & ->).
  destruct (run_trace Number env pre start) as (added & -> & F & C & _).
  by exists added.
Qed.

Lemma publishOnce_not_loop (evs : list event) :
  forallb (fun a => negb (is_loop_action a)) (trace (publishOnce evs)) = true.
Proof.
  destruct (publishOnce_trace evs) as (added & -> & F & _).
  now rewrite forallb_app, F.
Qed.

Lemma publishOnce_connects (evs : list event) :
  connects (trace (publishOnce evs)) = 1%nat.
Proof.
  destruct (publishOnce_trace evs) as (added & -> & _ & C).
  unfold connects. now rewrite count_app, C.
Qed.

Lemma loop_nil (n : Z) :
  loop n [] =
  if js_le (of_Z n) maxAttempts
  then (ALog (LAttempt n maxAttempts) :: trace (publishOnce []), Awaiting)
  else ([], Returned).
Proof. reflexivity. Qed.

Lemma loop_cons (n : Z) (evs : list event) (rest : list (list event)) :
  loop n (evs :: rest) =
  if js_le (of_Z n) maxAttempts
  then (ALog (LAttempt n maxAttempts)
          :: (after_attempt Number env n (publishOnce evs)
                (loop (n + 1) rest)).1,
        (after_attempt Number env n (publishOnce evs)
           (loop (n + 1) rest)).2)
  else ([], Returned).
Proof. reflexivity. Qed.

(** An attempt that fails with attempts to spare: log, back off, go on. *)
Lemma loop_cons_retry (n N : Z) (evs : list event) (e : error)
    (rest : list (list event)) :
  is_int maxAttempts N -> (n < N)%Z ->
  promise (publishOnce evs) = Rejected e ->
  loop n (evs :: rest) =
  (ALog (LAttempt n maxAttempts)
     :: trace (publishOnce evs)
     ++ [ALog (LAttemptFailed n e);
         ALog (LWaiting (js_mul baseDelayMs (Math_pow2 (n - 1))));
         ASleep (js_mul baseDelayMs (Math_pow2 (n - 1)))]
     ++ (loop (n + 1) rest).1,
   (loop (n + 1) rest).2).
Proof.
  intros Hint Hn He. rewrite loop_cons. unfold after_attempt. rewrite He.
  unfold is_int in Hint. destruct maxAttempts as [| | | q] eqn:Em;
    try contradiction.
  rewrite (js_le_int n N q Hint), (js_lt_int n N q Hint).
  replace (n <=? N)%Z with true by lia. replace (n <? N)%Z with true by lia.
  reflexivity.
Qed.

(** The last attempt of the budget fails: log and [process.exit(1)]. *)
Lemma loop_cons_final (N : Z) (evs : list event) (e : error)
    (rest : list (list event)) :
  is_int maxAttempts N ->
  promise (publishOnce evs) = Rejected e ->
  loop N (evs :: rest) =
  (ALog (LAttempt N maxAttempts)
     :: trace (publishOnce evs)
     ++ [ALog (LAttemptFailed N e); ALog LAllFailed; AExit 1],
   Exited 1).
Proof.
  intros Hint He. rewrite loop_cons. unfold after_attempt. rewrite He.
  unfold is_int in Hint. destruct maxAttempts as [| | | q] eqn:Em;
    try contradiction.
  rewrite (js_le_int N N q Hint), (js_lt_int N N q Hint).
  rewrite Z.leb_refl, Z.ltb_irrefl. reflexivity.
Qed.

(** An attempt within the budget succeeds: log and [process.exit(0)]. *)
Lemma loop_cons_success (n N : Z) (evs : list event)
    (rest : list (list event)) :
  is_int maxAttempts N -> (n <= N)%Z ->
  promise (publishOnce evs) = Resolved ->
  loop n (evs :: rest) =
  (ALog (LAttempt n maxAttempts)
     :: trace (publishOnce evs) ++ [ALog LDone; AExit 0],
   Exited 0).
Proof.
  intros Hint Hn He. rewrite loop_cons. unfold after_attempt. rewrite He.
  unfold is_int in Hint. destruct maxAttempts as [| | | q] eqn:Em;
    try contradiction.
  rewrite (js_le_int n N q Hint).
  replace (n <=? N)%Z with true by lia. reflexivity.
Qed.

(** A run of failed attempts, none of them the last of the budget: one
    block of the trace per attempt, then the loop goes on from the next
    value of the counter. *)
Lemma loop_failures (fs rest : list (list event)) (n N : Z) :
  is_int maxAttempts N -> Forall fails fs ->
  (n + Z.of_nat (length fs) <= N)%Z ->
  exists block,
    (loop n (fs ++ rest)).1
      = block ++ (loop (n + Z.of_nat (length fs)) rest).1 /\
    (loop n (fs ++ rest)).2 = (loop (n + Z.of_nat (length fs)) rest).2 /\
    attempt_ordinals block = seqZ n (Z.of_nat (length fs)) /\
    connects block = length fs.
Proof.
  intros Hint Hfs. revert n.
  induction Hfs as [| evs fs (e & He) Hfs IH]; intros n Hn.
  - exists []. cbn [length app Z.of_nat]. rewrite Z.add_0_r. by repeat split.
  - cbn [length] in *. rewrite Nat2Z.inj_succ in *.
    cbn [app]. rewrite (loop_cons_retry n N evs e) by (auto; lia).
    destruct (IH (n + 1)%Z) as (block & Htr & Hout & Hord & Hcon); [lia |].
    replace (n + Z.succ (Z.of_nat (length fs)))%Z
      with (n + 1 + Z.of_nat (length fs))%Z by lia.
    cbn [fst snd]. rewrite Htr, Hout.
    exists (ALog (LAttempt n maxAttempts)
              :: trace (publishOnce evs)
              ++ [ALog (LAttemptFailed n e);
                  ALog (LWaiting (js_mul baseDelayMs (Math_pow2 (n - 1))));
                  ASleep (js_mul baseDelayMs (Math_pow2 (n - 1)))]
              ++ block).
    split_and!.
    + cbn [app]. now rewrite <- !app_assoc.
    + reflexivity.
    + change (attempt_ordinals (ALog (LAttempt n maxAttempts) :: ?l))
        with (n :: attempt_ordinals l).
      rewrite !attempt_ordinals_app, Hord.
      rewrite (attempt_ordinals_not_loop _ (publishOnce_not_loop evs)).
      change (attempt_ordinals [_; _; _]) with (@nil Z).
      cbn [app].
      rewrite (seqZ_cons n) by lia.
      f_equal. f_equal; lia.
    + unfold connects in *.
      change (count is_connect (ALog (LAttempt n maxAttempts) :: ?l))
        with (count is_connect l).
      rewrite !count_app, Hcon.
      pose proof (publishOnce_connects evs) as Hc. unfold connects in Hc.
      rewrite Hc. reflexivity.
Qed.

(** One attempt in the trace: a single connect, from an idle state, and
    idle again once the promise is settled. *)
Lemma publishOnce_one_at_a_time (evs : list event) :
  one_at_a_time false (trace (publishOnce evs)) = true /\
  (promise (publishOnce evs) <> Pending ->
   busy_after false (trace (publishOnce evs)) = false).
Proof.
  change (publishOnce evs) with (until_settled Number env evs start).
  destruct (until_settled_run Number env evs start) as (pre & post & _ & ->).
  pose proof (settle_in_trace Number env pre) as Hs.
  destruct (run_trace Number env pre start) as (added & Htr & _ & C & _).
  rewrite Htr in *. split.
  - rewrite one_at_a_time_app. cbn [trace publishOnce_start one_at_a_time].
    cbn. now apply one_at_a_time_no_connect.
  - intros Hp. specialize (Hs Hp). rewrite existsb_app in Hs.
    cbn [trace publishOnce_start existsb is_settle orb] in Hs.
    rewrite busy_after_app. now apply busy_after_settle.
Qed.

(** Attempts never overlap, whatever the script and the budget. *)
Lemma loop_one_at_a_time (script : list (list event)) (n : Z) :
  one_at_a_time false (loop n script).1 = true.
Proof.
  revert n. induction script as [| evs rest IH]; intros n.
  - rewrite loop_nil. destruct (js_le _ _); [| reflexivity].
    cbn [fst one_at_a_time is_connect is_settle andb negb orb].
    apply publishOnce_one_at_a_time.
  - rewrite loop_cons. destruct (js_le _ _); [| reflexivity].
    cbn [fst one_at_a_time is_connect is_settle andb negb orb].
    destruct (publishOnce_one_at_a_time evs) as [H1 H2].
    unfold after_attempt. destruct (promise (publishOnce evs)) eqn:Ep.
    + exact H1.
    + cbn [fst]. rewrite one_at_a_time_app, H1. reflexivity.
    + destruct (js_lt _ _); cbn [fst]; rewrite one_at_a_time_app, H1, H2
        by discriminate; [apply IH | reflexivity].
Qed.

(** C1. With MQTT_HOST set and an attempt budget that is the positive
    integer [N], if every call of [publishOnce] fails, the script starts
    the attempts 1, 2, ..., N in this order, each with one call of
    [mqtt.connect] and none before the previous attempt has settled, and
    after the failure of attempt N logs the exhaustion and calls
    [process.exit(1)]. *)
Theorem all_attempts_fail_exit_1 (N : Z) (script : list (list event)) :
  truthy (TARGET env) = true ->
  is_int maxAttempts N ->
  (0 < N)%Z ->
  (N <= Z.of_nat (length script))%Z ->
  Forall fails script ->
  one_at_a_time false (program script).1 = true /\
  (program script).2 = Exited 1 /\
  exit_code (program script).2 = Some 1%Z /\
  attempt_ordinals (program script).1 = seqZ 1 N /\
  connects (program script).1 = Z.to_nat N /\
  exists pre e,
    (program script).1
    = pre ++ [ALog (LAttemptFailed N e); ALog LAllFailed; AExit 1].
Proof.
  intros Hhost Hint HN Hlen Hall.
  change (program script) with
    (if truthy (TARGET env) then loop 1 script
     else ([ALog LHostNotSet; AExit 2], Exited 2)).
  rewrite Hhost. split; [apply loop_one_at_a_time |].
  rewrite <- (take_drop (Z.to_nat (N - 1)) script) in Hall |- *.
  apply Forall_app in Hall as [Hfs Hlast].
  assert (Hk : length (take (Z.to_nat (N - 1)) script) = Z.to_nat (N - 1))
    by (rewrite length_take; lia).
  destruct (drop (Z.to_nat (N - 1)) script) as [| evs rest] eqn:Ed.
  { apply (f_equal length) in Ed. rewrite length_drop in Ed.
    cbn [length] in Ed. lia. }
  apply Forall_cons in Hlast as [(e & He) _].
  destruct (loop_failures _ (evs :: rest) 1 N Hint Hfs)
    as (block & Htr & Hout & Hord & Hcon); [lia |].
  rewrite Hk in *.
  replace (1 + Z.of_nat (Z.to_nat (N - 1)))%Z with N in * by lia.
  rewrite (loop_cons_final N evs e rest Hint He) in Htr, Hout.
  cbn [fst snd] in Htr, Hout. rewrite Htr, Hout. split_and!.
  - reflexivity.
  - reflexivity.
  - rewrite attempt_ordinals_app, Hord.
    change (attempt_ordinals (ALog (LAttempt N maxAttempts) :: ?l))
      with (N :: attempt_ordinals l).
    rewrite attempt_ordinals_app.
    rewrite (attempt_ordinals_not_loop _ (publishOnce_not_loop evs)).
    change (attempt_ordinals [_; _; _]) with (@nil Z). cbn [app].
    replace (seqZ 1 N) with (seqZ 1 (Z.of_nat (Z.to_nat (N - 1)) + 1))
      by (f_equal; lia).
    rewrite seqZ_app by lia. f_equal.
    rewrite (seqZ_cons _ 1) by lia. cbn. f_equal. lia.
  - unfold connects in *. rewrite count_app, Hcon.
    change (count is_connect (ALog (LAttempt N maxAttempts) :: ?l))
      with (count is_connect l).
    rewrite count_app.
    pose proof (publishOnce_connects evs) as Hc. unfold connects in Hc.
    rewrite Hc. cbn. lia.
  - exists (block ++ ALog (LAttempt N maxAttempts) :: trace (publishOnce evs)), e.
    now rewrite <- app_assoc.
Qed.

(** C2. With MQTT_HOST set and the integer budget [N], if the attempts
    before attempt [m] fail and attempt [m] succeeds ([1 <= m <= N]),
    the script starts the attempts 1, ..., m and no other, logs the
    success right after the promise of attempt [m] resolves and calls
    [process.exit(0)]; what the later attempts would have met plays no
    part. *)
Theorem first_success_exit_0 (N m : Z) (fs rest : list (list event))
    (evs : list event) :
  truthy (TARGET env) = true ->
  is_int maxAttempts N ->
  (1 <= m <= N)%Z ->
  Z.of_nat (length fs) = (m - 1)%Z ->
  Forall fails fs ->
  promise (publishOnce evs) = Resolved ->
  (program (fs ++ evs :: rest)).2 = Exited 0 /\
  exit_code (program (fs ++ evs :: rest)).2 = Some 0%Z /\
  attempt_ordinals (program (fs ++ evs :: rest)).1 = seqZ 1 m /\
  connects (program (fs ++ evs :: rest)).1 = Z.to_nat m /\
  program (fs ++ evs :: rest) = program (fs ++ [evs]) /\
  exists pre,
    (program (fs ++ evs :: rest)).1
    = pre ++ ALog (LAttempt m maxAttempts)
          :: trace (publishOnce evs) ++ [ALog LDone; AExit 0].
Proof.
  intros Hhost Hint Hm Hlen Hfs He.
  change (program ?x) with
    (if truthy (TARGET env) then loop 1 x
     else ([ALog LHostNotSet; AExit 2], Exited 2)).
  rewrite Hhost.
  destruct (loop_failures fs (evs :: rest) 1 N Hint Hfs)
    as (block & Htr & Hout & Hord & Hcon); [lia |].
  destruct (loop_failures fs [evs] 1 N Hint Hfs)
    as (block' & Htr' & Hout' & _); [lia |].
  assert (Hsame : loop 1 (fs ++ evs :: rest) = loop 1 (fs ++ [evs])).
  { clear Htr Hout Htr' Hout' Hord Hcon block block'.
    assert (Hgen : forall n, (n + Z.of_nat (length fs) <= N)%Z ->
              loop n (fs ++ evs :: rest) = loop n (fs ++ [evs])).
    { clear Hlen. induction Hfs as [| evs0 fs (e & He0) Hfs IH]; intros n Hn.
      - cbn [app length Z.of_nat] in *.
        rewrite !(loop_cons_success n N) by (auto; lia). reflexivity.
      - cbn [length] in Hn. rewrite Nat2Z.inj_succ in Hn. cbn [app].
        rewrite !(loop_cons_retry n N evs0 e) by (auto; lia).
        rewrite IH by lia. reflexivity. }
    apply Hgen. lia. }
  rewrite Hlen in *. replace (1 + (m - 1))%Z with m in * by lia.
  rewrite (loop_cons_success m N evs rest Hint) in Htr, Hout by (auto; lia).
  cbn [fst snd] in Htr, Hout. rewrite <- Hsame. rewrite Htr, Hout.
  split_and!.
  - reflexivity.
  - reflexivity.
  - rewrite attempt_ordinals_app, Hord.
    change (attempt_ordinals (ALog (LAttempt m maxAttempts) :: ?l))
      with (m :: attempt_ordinals l).
    rewrite attempt_ordinals_app.
    rewrite (attempt_ordinals_not_loop _ (publishOnce_not_loop evs)).
    change (attempt_ordinals [_; _]) with (@nil Z). cbn [app].
    replace (seqZ 1 m) with (seqZ 1 ((m - 1) + 1)) by (f_equal; lia).
    rewrite seqZ_app by lia. f_equal.
    rewrite (seqZ_cons _ 1) by lia. cbn. f_equal. lia.
  - unfold connects in *. rewrite count_app, Hcon.
    change (count is_connect (ALog (LAttempt m maxAttempts) :: ?l))
      with (count is_connect l).
    rewrite count_app.
    pose proof (publishOnce_connects evs) as Hc. unfold connects in Hc.
    rewrite Hc. cbn. lia.
  - reflexivity.
  - by exists block.
Qed.

(** *** Backoff *)





End Loop.

(** ** The samples, through the theorems *)

Lemma sample_unreachable_fails : fails sample_Number sample_env unreachable.
Proof. exists "ECONNREFUSED". reflexivity. Qed.

(** A budget of two, the broker unreachable: two attempts, exit 1. *)
Lemma all_attempts_fail_exit_1_witness :
  (program sample_Number sample_env [unreachable; unreachable]).2 = Exited 1
  /\ attempt_ordinals
       (program sample_Number sample_env [unreachable; unreachable]).1
     = [1; 2]%Z
  /\ connects (program sample_Number sample_env [unreachable; unreachable]).1
     = 2%nat.
Proof.
  destruct (all_attempts_fail_exit_1 sample_Number sample_env 2
              [unreachable; unreachable])
    as (_ & H1 & _ & H2 & H3 & _).
  - reflexivity.
  - reflexivity.
  - lia.
  - cbn. lia.
  - repeat constructor; apply sample_unreachable_fails.
  - exact (conj H1 (conj H2 H3)).
Defined.

(** A budget of two, the second attempt delivers: exit 0. *)
Lemma first_success_exit_0_witness :
  (program sample_Number sample_env [unreachable; delivered; unreachable]).2
  = Exited 0
  /\ attempt_ordinals
       (program sample_Number sample_env
          [unreachable; delivered; unreachable]).1
     = [1; 2]%Z.
Proof.
  destruct (first_success_exit_0 sample_Number sample_env 2 2
              [unreachable] [unreachable] delivered)
    as (H1 & _ & H2 & _).
  - reflexivity.
  - reflexivity.
  - lia.
  - reflexivity.
  - repeat constructor; apply sample_unreachable_fails.
  - reflexivity.
  - exact (conj H1 H2).
Defined.



(** * Further properties of the script *)

(** ** Numbers, for budgets that are not integers *)

Lemma js_le_Q (n : Z) (q : Q) :
  js_le (of_Z n) (Fin q) = true <-> (inject_Z n <= q)%Q.
Proof. apply Qle_bool_iff. Qed.

Lemma js_lt_Q (n : Z) (q : Q) :
  js_lt (of_Z n) (Fin q) = true <-> (inject_Z n < q)%Q.
Proof.
  unfold js_lt, of_Z. rewrite negb_true_iff. split.
  - intros H. apply Qnot_le_lt. intros Hle.
    apply Qle_bool_iff in Hle. congruence.
  - intros H. destruct (Qle_bool q (inject_Z n)) eqn:E; [| reflexivity].
    apply Qle_bool_iff in E. exfalso. exact (Qlt_not_le _ _ H E).
Qed.

(** Below the budget means within the budget. *)
Lemma js_lt_le (n : Z) (m : jsnum) :
  js_lt (of_Z n) m = true -> js_le (of_Z n) m = true.
Proof.
  destruct m as [| | | q]; try discriminate; try reflexivity.
  rewrite js_lt_Q, js_le_Q. apply Qlt_le_weak.
Qed.

(** The counter is at the budget exactly when the budget is that
    integer. *)
Lemma js_at_budget (n : Z) (m : jsnum) :
  js_le (of_Z n) m = true -> js_lt (of_Z n) m = false -> is_int m n.
Proof.
  destruct m as [| | | q]; try discriminate.
  intros Hle Hlt. apply js_le_Q in Hle. cbn [is_int].
  apply Qle_antisym; [| exact Hle].
  apply Qnot_lt_le. intros H. apply js_lt_Q in H. congruence.
Qed.


(** ** Counting in traces *)

Lemma count_not_loop (p : action -> bool) (l : list action) :
  (forall a, p a = true -> is_loop_action a = true) ->
  forallb (fun a => negb (is_loop_action a)) l = true ->
  count p l = 0%nat.
Proof.
  intros Hp. induction l as [| a l IH]; [reflexivity |]. cbn [forallb].
  intros [Ha Hl]%andb_true_iff. unfold count in *. cbn [List.filter].
  destruct (p a) eqn:E; [| now apply IH].
  rewrite (Hp a E) in Ha. discriminate Ha.
Qed.

Lemma count_zero_not_in (p : action -> bool) (l : list action) (a : action) :
  count p l = 0%nat -> p a = true -> ~ In a l.
Proof.
  intros Hc Ha Hin. unfold count in Hc.
  assert (Hf : In a (List.filter p l)) by (apply filter_In; auto).
  destruct (List.filter p l); [destruct Hf | discriminate Hc].
Qed.

Lemma sleeps_app (l1 l2 : list action) :
  sleeps (l1 ++ l2) = sleeps l1 ++ sleeps l2.
Proof. apply omap_app. Qed.

Lemma sleeps_not_loop (l : list action) :
  forallb (fun a => negb (is_loop_action a)) l = true -> sleeps l = [].
Proof.
  induction l as [| a l IH]; [reflexivity |]. cbn [forallb].
  intros [Ha Hl]%andb_true_iff. specialize (IH Hl).
  destruct a as [[] | | | | | | | | |]; try discriminate Ha; exact IH.
Qed.

Section Orchestrator.

Variable Number : string -> jsnum.
Variable env : gmap string string.

Local Abbreviation start := (publishOnce_start Number env).
Local Abbreviation publishOnce := (publishOnce Number env).
Local Abbreviation maxAttempts := (maxAttempts Number env).
Local Abbreviation baseDelayMs := (baseDelayMs Number env).
Local Abbreviation loop := (loop Number env).
Local Abbreviation program := (program Number env).
Local Abbreviation fails := (fails Number env).

Lemma publishOnce_no_exit (evs : list event) :
  count is_exit (trace (publishOnce evs)) = 0%nat.
Proof.
  apply count_not_loop; [| apply publishOnce_not_loop].
  intros [] H; try discriminate H; reflexivity.
Qed.


Lemma program_unfold (script : list (list event)) :
  program script =
  if truthy (TARGET env) then loop 1 script
  else ([ALog LHostNotSet; AExit 2], Exited 2).
Proof. reflexivity. Qed.

(** *** Where the process exits *)

(** The trace of the loop holds a [process.exit] exactly when the loop
    leaves through it, and then once, as its last action. *)
Lemma loop_shape (script : list (list event)) (n : Z) :
  match (loop n script).2 with
  | Exited c =>
      (c = 0 \/ c = 1)%Z /\
      exists pre, (loop n script).1 = pre ++ [AExit c]
                  /\ count is_exit pre = 0%nat
  | _ => count is_exit (loop n script).1 = 0%nat
  end.
Proof.
  revert n. induction script as [| evs rest IH]; intros n.
  - rewrite loop_nil. destruct (js_le _ _); cbn [fst snd]; [| reflexivity].
    change (count is_exit (ALog (LAttempt n maxAttempts) :: ?l))
      with (count is_exit l).
    apply publishOnce_no_exit.
  - rewrite loop_cons. destruct (js_le _ _); cbn [fst snd]; [| reflexivity].
    unfold after_attempt. pose proof (publishOnce_no_exit evs) as Hp.
    destruct (promise (publishOnce evs)) as [| | e]; cbn [fst snd].
    + exact Hp.
    + split; [auto |].
      exists (ALog (LAttempt n maxAttempts)
                :: trace (publishOnce evs) ++ [ALog LDone]).
      split; [cbn [app]; now rewrite <- app_assoc |].
      change (count is_exit (ALog (LAttempt n maxAttempts) :: ?l))
        with (count is_exit l).
      now rewrite count_app, Hp.
    + destruct (js_lt _ _); cbn [fst snd].
      * specialize (IH (n + 1)%Z).
        destruct ((loop (n + 1) rest).2) as [c | |].
        -- destruct IH as (Hc & pre & Hpre & Hcount). split; [exact Hc |].
           exists (ALog (LAttempt n maxAttempts)
                     :: trace (publishOnce evs)
                     ++ [ALog (LAttemptFailed n e);
                         ALog (LWaiting (js_mul baseDelayMs
                                           (Math_pow2 (n - 1))));
                         ASleep (js_mul baseDelayMs (Math_pow2 (n - 1)))]
                     ++ pre).
           split; [rewrite Hpre; cbn [app]; now rewrite <- !app_assoc |].
           change (count is_exit (ALog (LAttempt n maxAttempts) :: ?l))
             with (count is_exit l).
           now rewrite !count_app, Hp, Hcount.
        -- change (count is_exit (ALog (LAttempt n maxAttempts) :: ?l))
             with (count is_exit l).
           now rewrite !count_app, Hp, IH.
        -- change (count is_exit (ALog (LAttempt n maxAttempts) :: ?l))
             with (count is_exit l).
           now rewrite !count_app, Hp, IH.
      * split; [auto |].
        exists (ALog (LAttempt n maxAttempts)
                  :: trace (publishOnce evs)
                  ++ [ALog (LAttemptFailed n e); ALog LAllFailed]).
        split; [cbn [app]; now rewrite <- app_assoc |].
        change (count is_exit (ALog (LAttempt n maxAttempts) :: ?l))
          with (count is_exit l).
        now rewrite count_app, Hp.
Qed.

(** X1. Whatever the environment and the events: a [process.exit] in the
    trace is its last action and agrees with the outcome; an exit
    through [process.exit] carries code 0, 1 or 2 and ends the trace;
    and without such an exit the trace holds no [process.exit] at all. *)
Theorem exit_ends_the_trace (script : list (list event)) :
  (forall (pre post : list action) (c : Z),
     (program script).1 = pre ++ AExit c :: post ->
     post = [] /\ (program script).2 = Exited c) /\
  (forall c : Z, (program script).2 = Exited c ->
     (c = 0 \/ c = 1 \/ c = 2)%Z /\
     exists pre, (program script).1 = pre ++ [AExit c]) /\
  ((forall c : Z, (program script).2 <> Exited c) ->
   count is_exit (program script).1 = 0%nat).
Proof.
  rewrite program_unfold. destruct (truthy (TARGET env)).
  - pose proof (loop_shape script 1) as H. split_and!.
    + intros pre post c Htr. destruct ((loop 1 script).2) as [c' | |].
      * destruct H as (_ & pre' & Hpre & Hcount). rewrite Hpre in Htr.
        apply split_at in Htr as (pre2 & _ & Htr).
        2:{ now apply (count_zero_not_in is_exit). }
        destruct pre2 as [| a [| b pre2]]; try discriminate Htr.
        now injection Htr as -> <-.
      * exfalso. apply (count_zero_not_in is_exit _ (AExit c) H eq_refl).
        rewrite Htr. apply in_elt.
      * exfalso. apply (count_zero_not_in is_exit _ (AExit c) H eq_refl).
        rewrite Htr. apply in_elt.
    + intros c Hc. rewrite Hc in H. destruct H as (Hc01 & pre & Hpre & _).
      split; [tauto | by exists pre].
    + intros Hno. destruct ((loop 1 script).2) as [c | |]; try exact H.
      now contradiction (Hno c).
  - split_and!.
    + intros pre post c Htr.
      destruct pre as [| a [| b [| ? ?]]]; try discriminate Htr.
      now injection Htr as <- <-.
    + intros c [= <-]. split; [auto |]. by exists [ALog LHostNotSet].
    + intros Hno. now contradiction (Hno 2%Z).
Qed.

(** *** Attempts and connections *)



(** X3. The script calls [mqtt.connect] at all if and only if MQTT_HOST
    is truthy and the test [1 <= maxAttempts] holds: a budget that is
    NaN or below 1 connects nowhere. *)
Theorem connects_iff_host_and_budget (script : list (list event)) :
  connects (program script).1 <> 0%nat <->
  truthy (TARGET env) = true /\ js_le (of_Z 1) maxAttempts = true.
Proof.
  rewrite program_unfold. destruct (truthy (TARGET env)).
  2:{ split; [intros H; now contradiction H | intros [H _]; discriminate H]. }
  assert (Hpos : forall evs l,
            connects (ALog (LAttempt 1 maxAttempts)
                        :: trace (publishOnce evs) ++ l) <> 0%nat).
  { intros evs l. unfold connects.
    change (count ?p (ALog (LAttempt 1 maxAttempts) :: ?t)) with (count p t).
    pose proof (publishOnce_connects Number env evs) as Hc. unfold connects in Hc.
    rewrite count_app, Hc. discriminate. }
  destruct script as [| evs rest].
  - rewrite loop_nil. destruct (js_le _ _); cbn [fst].
    + split; [auto |]. intros _.
      rewrite <- (app_nil_r (trace (publishOnce []))). apply Hpos.
    + split; [intros H; now contradiction H | intros [_ H]; discriminate H].
  - rewrite loop_cons. destruct (js_le _ _); cbn [fst].
    + split; [auto |]. intros _. unfold after_attempt.
      destruct (promise (publishOnce evs)); [| | destruct (js_lt _ _)];
        cbn [fst]; try apply Hpos.
      rewrite <- (app_nil_r (trace (publishOnce evs))). apply Hpos.
    + split; [intros H; now contradiction H | intros [_ H]; discriminate H].
Qed.

(** *** Exit code 1 *)

Lemma loop_exit_1 (script : list (list event)) (n : Z) :
  (loop n script).2 = Exited 1 ->
  exists N : Z, (n <= N)%Z /\ is_int maxAttempts N /\
    attempt_ordinals (loop n script).1 = seqZ n (N - n + 1).
Proof.
  revert n. induction script as [| evs rest IH]; intros n.
  - rewrite loop_nil. destruct (js_le _ _); discriminate.
  - rewrite loop_cons. destruct (js_le _ _) eqn:Ele; [| discriminate].
    cbn [fst snd].
    change (attempt_ordinals (ALog (LAttempt n maxAttempts) :: ?l))
      with (n :: attempt_ordinals l).
    pose proof (attempt_ordinals_not_loop _ (publishOnce_not_loop Number env evs)) as Ho.
    unfold after_attempt.
    destruct (promise (publishOnce evs)) as [| | e]; cbn [fst snd];
      try discriminate.
    destruct (js_lt _ _) eqn:Elt; cbn [fst snd].
    + intros H. destruct (IH _ H) as (N & HN & Hint & Hord).
      exists N. split_and!; [lia | exact Hint |].
      rewrite !attempt_ordinals_app, Ho, Hord.
      change (attempt_ordinals [_; _; _]) with (@nil Z). cbn [app].
      rewrite (seqZ_cons n) by lia. f_equal. f_equal; lia.
    + intros _. exists n. split_and!; [lia | now apply js_at_budget |].
      rewrite attempt_ordinals_app, Ho.
      change (attempt_ordinals [_; _; _]) with (@nil Z). cbn [app].
      replace (n - n + 1)%Z with 1%Z by lia. reflexivity.
Qed.

(** X4. The script ends with [process.exit(1)] only when MQTT_HOST is
    set and the budget is a positive integer [N], and then after having
    started exactly the attempts 1, ..., N.  A budget that is not an
    integer (2.5, Infinity, NaN) never leads to exit code 1. *)
Theorem exit_1_only_integer_budget (script : list (list event)) :
  (program script).2 = Exited 1 ->
  truthy (TARGET env) = true /\
  exists N : Z, (1 <= N)%Z /\ is_int maxAttempts N /\
    attempt_ordinals (program script).1 = seqZ 1 N.
Proof.
  rewrite program_unfold. destruct (truthy (TARGET env)); [| discriminate].
  intros H. split; [reflexivity |].
  destruct (loop_exit_1 script 1 H) as (N & HN & Hint & Hord).
  exists N. split_and!; auto.
  rewrite Hord. f_equal. lia.
Qed.

(** *** Exit code 0 through [process.exit] *)

Lemma loop_exit_0 (script : list (list event)) (n : Z) :
  (loop n script).2 = Exited 0 ->
  exists fs evs rest,
    script = fs ++ evs :: rest /\ Forall fails fs /\
    promise (publishOnce evs) = Resolved.
Proof.
  revert n. induction script as [| evs rest IH]; intros n.
  - rewrite loop_nil. destruct (js_le _ _); discriminate.
  - rewrite loop_cons. destruct (js_le _ _); [| discriminate].
    cbn [snd]. unfold after_attempt.
    destruct (promise (publishOnce evs)) as [| | e] eqn:Ep; cbn [snd];
      try discriminate.
    + intros _. by exists [], evs, rest.
    + destruct (js_lt _ _); cbn [snd]; [| discriminate].
      intros H. destruct (IH _ H) as (fs & evs' & rest' & -> & Hfs & Hres).
      exists (evs :: fs), evs', rest'. split_and!; auto.
      constructor; [by exists e | exact Hfs].
Qed.

(** X5. The script logs success and calls [process.exit(0)] only after
    an attempt whose client delivered a connect event, a publish
    callback without error and the close callback, all attempts before
    it having failed. *)
Theorem exit_0_needs_acknowledged_publish (script : list (list event)) :
  (program script).2 = Exited 0 ->
  exists fs evs rest,
    script = fs ++ evs :: rest /\ Forall fails fs /\
    promise (publishOnce evs) = Resolved /\
    In EvConnect evs /\ In (EvPublished None) evs /\ In EvClosed evs.
Proof.
  rewrite program_unfold. destruct (truthy (TARGET env)); [| discriminate].
  intros H. destruct (loop_exit_0 script 1 H) as (fs & evs & rest & -> & Hfs & Hres).
  exists fs, evs, rest. split_and!; auto.
  all: change (publishOnce evs) with (until_settled Number env evs start) in Hres;
    rewrite until_settled_promise in Hres;
    now apply (callbacks_in_order Number env evs).
Qed.

(** *** Retries under any budget *)

Lemma loop_cons_again (n : Z) (evs : list event) (e : error)
    (rest : list (list event)) :
  js_lt (of_Z n) maxAttempts = true ->
  promise (publishOnce evs) = Rejected e ->
  loop n (evs :: rest) =
  (ALog (LAttempt n maxAttempts)
     :: trace (publishOnce evs)
     ++ [ALog (LAttemptFailed n e);
         ALog (LWaiting (js_mul baseDelayMs (Math_pow2 (n - 1))));
         ASleep (js_mul baseDelayMs (Math_pow2 (n - 1)))]
     ++ (loop (n + 1) rest).1,
   (loop (n + 1) rest).2).
Proof.
  intros Hlt He. rewrite loop_cons, (js_lt_le _ _ Hlt).
  unfold after_attempt. rewrite He, Hlt. reflexivity.
Qed.

(** Failed attempts below the budget, whatever the budget is: each one
    is followed by its sleep, and the loop goes on. *)
Lemma loop_retries (fs rest : list (list event)) (n : Z) :
  Forall fails fs ->
  (forall k : Z, (n <= k < n + Z.of_nat (length fs))%Z ->
     js_lt (of_Z k) maxAttempts = true) ->
  exists block,
    (loop n (fs ++ rest)).1
      = block ++ (loop (n + Z.of_nat (length fs)) rest).1 /\
    (loop n (fs ++ rest)).2 = (loop (n + Z.of_nat (length fs)) rest).2 /\
    attempt_ordinals block = seqZ n (Z.of_nat (length fs)) /\
    sleeps block
      = map (fun k => js_mul baseDelayMs (Math_pow2 (k - 1)))
          (seqZ n (Z.of_nat (length fs))) /\
    count is_exit block = 0%nat.
Proof.
  intros Hfs. revert n.
  induction Hfs as [| evs fs (e & He) Hfs IH]; intros n Hlt.
  - exists []. cbn [length app Z.of_nat]. rewrite Z.add_0_r.
    split_and!; reflexivity.
  - cbn [length] in *. rewrite Nat2Z.inj_succ in *. cbn [app].
    rewrite (loop_cons_again n evs e) by (auto; apply Hlt; lia).
    destruct (IH (n + 1)%Z) as (block & Htr & Hout & Hord & Hsl & Hex).
    { intros k Hk. apply Hlt. lia. }
    replace (n + Z.succ (Z.of_nat (length fs)))%Z
      with (n + 1 + Z.of_nat (length fs))%Z by lia.
    cbn [fst snd]. rewrite Htr, Hout.
    exists (ALog (LAttempt n maxAttempts)
              :: trace (publishOnce evs)
              ++ [ALog (LAttemptFailed n e);
                  ALog (LWaiting (js_mul baseDelayMs (Math_pow2 (n - 1))));
                  ASleep (js_mul baseDelayMs (Math_pow2 (n - 1)))]
              ++ block).
    split_and!.
    + cbn [app]. now rewrite <- !app_assoc.
    + reflexivity.
    + change (attempt_ordinals (ALog (LAttempt n maxAttempts) :: ?l))
        with (n :: attempt_ordinals l).
      rewrite !attempt_ordinals_app, Hord.
      rewrite (attempt_ordinals_not_loop _
                 (publishOnce_not_loop Number env evs)).
      change (attempt_ordinals [_; _; _]) with (@nil Z). cbn [app].
      rewrite (seqZ_cons n) by lia. f_equal. f_equal; lia.
    + change (sleeps (ALog (LAttempt n maxAttempts) :: ?l))
        with (sleeps l).
      rewrite !sleeps_app, Hsl.
      rewrite (sleeps_not_loop _ (publishOnce_not_loop Number env evs)).
      change (sleeps [ALog ?a; ALog ?b; ASleep ?c]) with [c]. cbn [app].
      rewrite (seqZ_cons n) by lia. cbn [map]. f_equal.
      f_equal. f_equal; lia.
    + change (count is_exit (ALog (LAttempt n maxAttempts) :: ?l))
        with (count is_exit l).
      now rewrite !count_app, publishOnce_no_exit, Hex.
Qed.

(** X6. With a budget strictly between the integers [N] and [N + 1]
    (2.5, say, or 0.5) and every attempt failing, the script makes the
    attempts 1, ..., N, sleeps after each of them, the last included,
    and then runs off the end of the loop: [process.exit] is never
    called and the process ends with status 0, not 1. *)
Theorem fractional_budget_returns_0 (N : Z) (q : Q)
    (script : list (list event)) :
  truthy (TARGET env) = true ->
  maxAttempts = Fin q ->
  (inject_Z N < q)%Q -> (q < inject_Z (N + 1))%Q ->
  (0 <= N <= Z.of_nat (length script))%Z ->
  Forall fails script ->
  (program script).2 = Returned /\
  exit_code (program script).2 = Some 0%Z /\
  attempt_ordinals (program script).1 = seqZ 1 N /\
  sleeps (program script).1
    = map (fun k => js_mul baseDelayMs (Math_pow2 (k - 1))) (seqZ 1 N) /\
  count is_exit (program script).1 = 0%nat.
Proof.
  intros Hhost Hmax Hlo Hhi HN Hall.
  rewrite program_unfold, Hhost.
  rewrite <- (take_drop (Z.to_nat N) script) in Hall |- *.
  apply Forall_app in Hall as [Hfs _].
  assert (Hk : Z.of_nat (length (take (Z.to_nat N) script)) = N)
    by (rewrite length_take; lia).
  destruct (loop_retries _ (drop (Z.to_nat N) script) 1 Hfs)
    as (block & Htr & Hout & Hord & Hsl & Hex).
  { intros k Hk'. rewrite Hmax. apply js_lt_Q.
    apply Qle_lt_trans with (inject_Z N); [| exact Hlo].
    rewrite <- Zle_Qle. lia. }
  rewrite Hk in *.
  assert (Hend : loop (1 + N) (drop (Z.to_nat N) script) = ([], Returned)).
  { assert (Hle : js_le (of_Z (1 + N)) maxAttempts = false).
    { rewrite Hmax. destruct (js_le _ _) eqn:E; [| reflexivity].
      apply js_le_Q in E. exfalso. apply (Qlt_not_le _ _ Hhi).
      now replace (N + 1)%Z with (1 + N)%Z by lia. }
    destruct (drop (Z.to_nat N) script).
    - now rewrite loop_nil, Hle.
    - now rewrite loop_cons, Hle. }
  rewrite Hend in Htr, Hout. cbn [fst snd] in Htr, Hout.
  rewrite app_nil_r in Htr. rewrite Htr, Hout.
  split_and!; auto.
Qed.

(** *** The whole backoff of a failed run *)



End Orchestrator.

(** ** More on one attempt *)

Section Handlers.

Variable Number : string -> jsnum.
Variable env : gmap string string.

Local Abbreviation start := (publishOnce_start Number env).
Local Abbreviation handle := (handle Number env).
Local Abbreviation run := (run Number env).
Local Abbreviation until_settled := (until_settled Number env).
Local Abbreviation publishOnce := (publishOnce Number env).
Local Abbreviation loop := (loop Number env).
Local Abbreviation program := (program Number env).
Local Abbreviation configured := (configured Number env).

(** *** Responses on the websocket stream *)

(** Two states that differ by response logs only. *)
Lemma handle_response_blind (ev : event) (s s' : attempt) :
  timedOut s = timedOut s' -> timer s = timer s' ->
  publishing s = publishing s' -> closing s = closing s' ->
  promise s = promise s' ->
  List.filter (fun a => negb (is_response_log a)) (trace s) = trace s' ->
  let t := handle ev s in
  let t' := if is_response ev then s' else handle ev s' in
  timedOut t = timedOut t' /\ timer t = timer t' /\
  publishing t = publishing t' /\ closing t = closing t' /\
  promise t = promise t' /\
  List.filter (fun a => negb (is_response_log a)) (trace t) = trace t'.
Proof.
  destruct s as [to tm pb cl pr tr], s' as [to' tm' pb' cl' pr' tr'].
  cbn [timedOut timer publishing closing promise trace].
  intros <- <- <- <- <- Htr. cbv zeta.
  destruct ev as [| | e | [e |] | | st [|]]; cbn [is_response]; handlers;
    destruct tm; destruct to; destruct pb; destruct cl;
    cbn [timedOut timer publishing closing promise trace];
    rewrite ?List.filter_app, ?Htr; cbn [List.filter is_response_log negb];
    rewrite ?app_nil_r; split_and!; reflexivity.
Qed.

(** X8. HTTP responses seen on the websocket stream are logged and
    nothing more: with the response events taken out of what the client
    delivers, the flags and the promise of the attempt are the same and
    the trace is the same up to the response logs; so is what the
    awaiting loop sees. *)
Theorem responses_are_informational (evs : list event) :
  let quiet := List.filter (fun ev => negb (is_response ev)) evs in
  promise (run evs start) = promise (run quiet start) /\
  timedOut (run evs start) = timedOut (run quiet start) /\
  timer (run evs start) = timer (run quiet start) /\
  List.filter (fun a => negb (is_response_log a)) (trace (run evs start))
    = trace (run quiet start) /\
  promise (publishOnce evs) = promise (publishOnce quiet).
Proof.
  cbv zeta.
  assert (Hgen : forall s s' : attempt,
    timedOut s = timedOut s' -> timer s = timer s' ->
    publishing s = publishing s' -> closing s = closing s' ->
    promise s = promise s' ->
    List.filter (fun a => negb (is_response_log a)) (trace s) = trace s' ->
    promise (run evs s)
      = promise (run (List.filter (fun ev => negb (is_response ev)) evs) s')
    /\ timedOut (run evs s)
      = timedOut (run (List.filter (fun ev => negb (is_response ev)) evs) s')
    /\ timer (run evs s)
      = timer (run (List.filter (fun ev => negb (is_response ev)) evs) s')
    /\ List.filter (fun a => negb (is_response_log a)) (trace (run evs s))
      = trace (run (List.filter (fun ev => negb (is_response ev)) evs) s')).
  { induction evs as [| ev evs IH]; intros s s' H1 H2 H3 H4 H5 H6.
    - auto.
    - destruct (handle_response_blind ev s s' H1 H2 H3 H4 H5 H6)
        as (K1 & K2 & K3 & K4 & K5 & K6).
      rewrite run_cons. cbn [List.filter].
      destruct (is_response ev); cbn [negb].
      + now apply IH.
      + rewrite run_cons. now apply IH. }
  destruct (Hgen start start) as (G1 & G2 & G3 & G4); try reflexivity.
  split_and!; auto.
  change (publishOnce ?l) with (until_settled l start).
  now rewrite !until_settled_promise.
Qed.

(** *** No deadline once connected *)

(** X9. Once the connect event is handled the timer is cancelled, and
    from then on only a publish callback or an error event can settle
    the attempt: whatever else arrives (the timer, further connects,
    close callbacks, responses), the promise stays pending, no timeout
    is logged and [client.end] is not called; and the script does
    nothing more by itself: the loop never resumes, so it starts no
    second attempt, requests no sleep and calls [process.exit]
    nowhere. *)
Theorem connected_attempt_has_no_deadline (rest : list event)
    (more : list (list event)) :
  forallb (fun ev => negb (settles ev)) rest = true ->
  promise (run (EvConnect :: rest) start) = Pending /\
  existsb is_end (trace (run (EvConnect :: rest) start)) = false /\
  count is_timeout_log (trace (run (EvConnect :: rest) start)) = 0%nat /\
  (truthy (TARGET env) = true ->
   js_le (of_Z 1) (maxAttempts Number env) = true ->
   (program ((EvConnect :: rest) :: more)).1
     = ALog (LAttempt 1 (maxAttempts Number env))
         :: trace (publishOnce (EvConnect :: rest)) /\
   attempt_ordinals (program ((EvConnect :: rest) :: more)).1 = [1%Z] /\
   sleeps (program ((EvConnect :: rest) :: more)).1 = [] /\
   count is_exit (program ((EvConnect :: rest) :: more)).1 = 0%nat).
Proof.
  intros Hrest.
  assert (Hgen : forall s : attempt,
    timedOut s = false -> timer s = false -> closing s = 0%nat ->
    promise s = Pending -> existsb is_end (trace s) = false ->
    promise (run rest s) = Pending
    /\ existsb is_end (trace (run rest s)) = false
    /\ timedOut (run rest s) = false).
  { induction rest as [| ev rest IH]; intros s H1 H2 H3 H4 H5; [auto |].
    cbn [forallb] in Hrest. apply andb_true_iff in Hrest as [Hev Hrest].
    rewrite run_cons. apply (IH Hrest);
      destruct s as [to tm pb cl pr tr];
      cbn [timedOut timer publishing closing promise trace] in *; subst;
      destruct ev as [| | e | [e |] | | st [|]]; try discriminate Hev;
      handlers; cbn [timedOut timer publishing closing promise trace];
      rewrite ?existsb_app, ?H5; reflexivity. }
  destruct (Hgen (handle EvConnect start)) as (G1 & G2 & G3);
    try reflexivity.
  rewrite run_cons. split_and!; auto.
  - pose proof (timer_inv_run Number env (EvConnect :: rest)) as (J1 & _).
    rewrite run_cons in J1. auto.
  - intros Hhost Hle.
    change (program ?x) with
      (if truthy (TARGET env) then loop 1 x
       else ([ALog LHostNotSet; AExit 2], Exited 2)).
    rewrite Hhost, loop_cons, Hle. cbn [fst]. unfold after_attempt.
    assert (Hp : promise (publishOnce (EvConnect :: rest)) = Pending).
    { change (publishOnce ?l) with (until_settled l start).
      now rewrite until_settled_promise, run_cons. }
    rewrite Hp. cbn [fst].
    pose proof (publishOnce_not_loop Number env (EvConnect :: rest)) as Hn.
    split_and!.
    + reflexivity.
    + change (attempt_ordinals (ALog (LAttempt 1 ?m) :: ?l))
        with (1%Z :: attempt_ordinals l).
      now rewrite (attempt_ordinals_not_loop _ Hn).
    + change (sleeps (ALog (LAttempt 1 ?m) :: ?l)) with (sleeps l).
      now apply sleeps_not_loop.
    + change (count is_exit (ALog (LAttempt 1 ?m) :: ?l))
        with (count is_exit l).
      apply publishOnce_no_exit.
Qed.

(** *** The race between the timer, connect and error *)

(** With the timer spent, the [timedOut] flag no longer moves. *)
Lemma run_timer_spent (evs : list event) (s : attempt) :
  timer s = false ->
  timedOut (run evs s) = timedOut s /\ timer (run evs s) = false.
Proof.
  revert s. induction evs as [| ev evs IH]; intros s Hs; [auto |].
  rewrite run_cons.
  assert (Hstep : timedOut (handle ev s) = timedOut s
                  /\ timer (handle ev s) = false).
  { destruct s as [to tm pb cl pr tr]. cbn [timer] in Hs. subst tm.
    destruct ev as [| | e | [e |] | | st [|]]; handlers;
      destruct to; destruct pb; destruct cl; auto. }
  destruct Hstep as [H1 H2]. destruct (IH _ H2) as [H3 H4].
  split; congruence.
Qed.

(** Events that do not race leave a pristine attempt pristine. *)
Lemma handle_pristine (ev : event) (s : attempt) :
  races ev = false -> pristine s -> pristine (handle ev s).
Proof.
  unfold pristine. destruct s as [to tm pb cl pr tr].
  cbn [timedOut timer publishing closing promise trace].
  intros Hev (-> & -> & -> & -> & -> & Htr).
  destruct ev as [| | e | [e |] | | st [|]]; try discriminate Hev;
    handlers; cbn [timedOut timer publishing closing promise trace];
    rewrite ?existsb_app, ?Htr; split_and!; reflexivity.
Qed.

Lemma race_from_pristine (evs : list event) (s : attempt) :
  pristine s ->
  match List.find races evs with
  | Some EvTimer =>
      timedOut (run evs s) = true /\
      promise (run evs s) = Rejected "connect timeout"
  | Some (EvError e) =>
      timedOut (run evs s) = false /\ promise (run evs s) = Rejected e
  | Some EvConnect =>
      timedOut (run evs s) = false /\ timer (run evs s) = false
  | _ => pristine (run evs s)
  end.
Proof.
  revert s. induction evs as [| ev evs IH]; intros s Hs; [exact Hs |].
  rewrite run_cons. cbn [List.find]. destruct (races ev) eqn:Er.
  - destruct Hs as (H1 & H2 & H3 & H4 & H5 & H6).
    destruct s as [to tm pb cl pr tr].
    cbn [timedOut timer publishing closing promise trace] in *. subst.
    destruct ev as [| | e | | |]; try discriminate Er.
    + destruct (run_timer_spent evs
                  (handle EvTimer
                     {| timedOut := false; timer := true; publishing := 0;
                        closing := 0; promise := Pending; trace := tr |}))
        as [K1 _]; [reflexivity |].
      rewrite K1. split; [reflexivity |].
      rewrite run_settled; [reflexivity | discriminate].
    + apply run_timer_spent. reflexivity.
    + destruct (run_timer_spent evs
                  (handle (EvError e)
                     {| timedOut := false; timer := true; publishing := 0;
                        closing := 0; promise := Pending; trace := tr |}))
        as [K1 _]; [reflexivity |].
      rewrite K1. split; [reflexivity |].
      rewrite run_settled; [reflexivity | discriminate].
  - apply IH. now apply handle_pristine.
Qed.

(** X10. Which of the timer, the connect event and the error event comes
    first decides how the attempt goes on, whatever comes before (stray
    callbacks, responses) and after it.  The timer first: the attempt is
    timed out and rejected with the timeout error.  An error first: the
    attempt is rejected with that error and never times out.  A connect
    first: the timer is cancelled and the attempt never times out.  None
    of the three: nothing has happened, the timer is armed, the promise
    pending and the connection not closed. *)
Theorem first_of_timer_connect_error (evs : list event) :
  match List.find races evs with
  | Some EvTimer =>
      timedOut (run evs start) = true /\
      promise (run evs start) = Rejected "connect timeout" /\
      count is_error_log (trace (run evs start)) = 0%nat
  | Some (EvError e) =>
      timedOut (run evs start) = false /\
      promise (run evs start) = Rejected e /\
      count is_timeout_log (trace (run evs start)) = 0%nat
  | Some EvConnect =>
      timedOut (run evs start) = false /\
      timer (run evs start) = false /\
      count is_timeout_log (trace (run evs start)) = 0%nat
  | _ => pristine (run evs start)
  end.
Proof.
  assert (Hp : pristine start) by (split_and!; reflexivity).
  pose proof (race_from_pristine evs start Hp) as H.
  pose proof (timer_inv_run Number env evs) as (J1 & J2 & _).
  destruct (List.find races evs) as [[| | e | | |] |]; try exact H.
  - destruct H as [H1 H2]. split_and!; auto.
    now destruct (J2 H1) as (_ & _ & _ & ? & _).
  - destruct H as [H1 H2]. split_and!; auto.
  - destruct H as [H1 H2]. split_and!; auto.
Qed.

(** *** Only what is configured *)

Lemma handle_configured (ev : event) (s : attempt) :
  Forall configured (trace s) -> Forall configured (trace (handle ev s)).
Proof.
  destruct s as [to tm pb cl pr tr]. cbn [trace]. intros H.
  destruct ev as [| | e | [e |] | | st [|]]; handlers;
    destruct tm; destruct to; destruct pb; destruct cl; cbn [trace];
    rewrite ?Forall_app; split_and?; auto;
    repeat constructor.
Qed.

Lemma publishOnce_configured (evs : list event) :
  Forall configured (trace (publishOnce evs)).
Proof.
  change (publishOnce evs) with (until_settled evs start).
  destruct (until_settled_run Number env evs start) as (pre & post & _ & ->).
  clear evs post. induction pre as [| ev pre IH] using rev_ind.
  - repeat constructor.
  - rewrite run_snoc. now apply handle_configured.
Qed.

Lemma loop_configured (script : list (list event)) (n : Z) :
  Forall configured (loop n script).1.
Proof.
  revert n. induction script as [| evs rest IH]; intros n.
  - rewrite loop_nil. destruct (js_le _ _); cbn [fst]; [| constructor].
    constructor; [exact I | apply publishOnce_configured].
  - rewrite loop_cons. destruct (js_le _ _); cbn [fst]; [| constructor].
    constructor; [exact I |]. unfold after_attempt.
    pose proof (publishOnce_configured evs) as Hp.
    destruct (promise (publishOnce evs)); [| | destruct (js_lt _ _)];
      cbn [fst]; rewrite ?Forall_app; split_and?; auto;
      repeat constructor.
Qed.

(** X11. Whatever the client delivers and however often the loop
    retries, every [mqtt.connect] of the script goes to MQTT_HOST with
    the same options (the credentials of the environment, the configured
    connect timeout, automatic reconnection switched off, the headers of
    [wsHeaders]), every timer is armed for [connectTimeout + 5000] ms,
    every publish sends the configured payload to the configured topic
    with quality of service 1, and every [client.end] is forced. *)
Theorem only_configured_actions (script : list (list event)) :
  Forall configured (program script).1 /\
  username (connect_options Number env) = env !! "MQTT_USER" /\
  password (connect_options Number env) = env !! "MQTT_PASSWORD" /\
  opt_connectTimeout (connect_options Number env)
    = connectTimeout Number env /\
  reconnectPeriod (connect_options Number env) = 0%Z /\
  headers (connect_options Number env) = wsHeaders env.
Proof.
  split_and!; try reflexivity.
  change (program script) with
    (if truthy (TARGET env) then loop 1 script
     else ([ALog LHostNotSet; AExit 2], Exited 2)).
  destruct (truthy (TARGET env)); [apply loop_configured |].
  repeat constructor.
Qed.

End Handlers.

(** ** The samples, through the further properties *)

(** A budget of two, the broker unreachable: exit code 1 names the
    budget. *)
Lemma exit_1_only_integer_budget_witness :
  truthy (TARGET sample_env) = true /\
  exists N : Z, (1 <= N)%Z /\ is_int (maxAttempts sample_Number sample_env) N /\
    attempt_ordinals
      (program sample_Number sample_env [unreachable; unreachable]).1
    = seqZ 1 N.
Proof.
  exact (exit_1_only_integer_budget sample_Number sample_env
           [unreachable; unreachable] eq_refl).
Defined.

(** The second attempt delivers: the success names that attempt. *)
Lemma exit_0_needs_acknowledged_publish_witness :
  exists fs evs rest,
    [unreachable; delivered; unreachable] = fs ++ evs :: rest /\
    Forall (fails sample_Number sample_env) fs /\
    promise (publishOnce sample_Number sample_env evs) = Resolved /\
    In EvConnect evs /\ In (EvPublished None) evs /\ In EvClosed evs.
Proof.
  exact (exit_0_needs_acknowledged_publish sample_Number sample_env
           [unreachable; delivered; unreachable] eq_refl).
Defined.

Lemma sample_half_unreachable_fails :
  fails sample_Number_half env_fractional_budget unreachable.
Proof. exists "ECONNREFUSED". reflexivity. Qed.

(** MQTT_ATTEMPTS set to 2.5, the broker unreachable: two attempts, two
    sleeps, and status 0. *)
Lemma fractional_budget_returns_0_witness :
  (program sample_Number_half env_fractional_budget
     [unreachable; unreachable; unreachable]).2 = Returned /\
  attempt_ordinals
    (program sample_Number_half env_fractional_budget
       [unreachable; unreachable; unreachable]).1 = [1; 2]%Z /\
  count is_exit
    (program sample_Number_half env_fractional_budget
       [unreachable; unreachable; unreachable]).1 = 0%nat.
Proof.
  destruct (fractional_budget_returns_0 sample_Number_half
              env_fractional_budget 2 (5 # 2)
              [unreachable; unreachable; unreachable])
    as (H1 & _ & H2 & _ & H3).
  - reflexivity.
  - reflexivity.
  - reflexivity.
  - reflexivity.
  - cbn. lia.
  - repeat constructor; apply sample_half_unreachable_fails.
  - exact (conj H1 (conj H2 H3)).
Defined.



(** Connected, then only the timer, a response and a stray close
    callback: the attempt stays pending and the script goes no
    further. *)
Lemma connected_attempt_has_no_deadline_witness :
  promise (run sample_Number sample_env
             [EvConnect; EvTimer; EvResponse 200 true; EvClosed]
             (publishOnce_start sample_Number sample_env)) = Pending /\
  attempt_ordinals
    (program sample_Number sample_env
       [[EvConnect; EvTimer; EvResponse 200 true; EvClosed]; delivered]).1
  = [1%Z] /\
  count is_exit
    (program sample_Number sample_env
       [[EvConnect; EvTimer; EvResponse 200 true; EvClosed]; delivered]).1
  = 0%nat.
Proof.
  destruct (connected_attempt_has_no_deadline sample_Number sample_env
              [EvTimer; EvResponse 200 true; EvClosed] [delivered] eq_refl)
    as (H1 & _ & _ & H2).
  destruct (H2 eq_refl eq_refl) as (_ & H3 & _ & H4).
  exact (conj H1 (conj H3 H4)).
Defined.
